(** * Profanity plugin host: [src/plugins/plugins.c]

    A shallow embedding of the plugin registry, the loader, the hook
    dispatcher and the teardown sequence of [plugins.c], together with the
    properties of the design document that concern them.

    The file is organised as follows:
    - strings: [g_str_has_suffix];
    - a state monad in which a computation may stop;
    - the data model: [lang_t], [ProfPlugin], the collaborators of
      [plugins.c] ([Host]), the program state and its event trace;
    - the functions of [plugins.c], in source order;
    - the message hooks once more, with the buffers that [strdup] and
      [free] handle kept;
    - sample plugins and hosts;
    - the properties. *)

From Stdlib Require Import List String Ascii Bool Arith Lia.
Import ListNotations.

Local Open Scope string_scope.
Local Open Scope list_scope.

Set Implicit Arguments.

(* ================================================================= *)
(** ** Strings *)

(** glib's [g_str_has_suffix (str, suffix)]: compare the last
    [strlen suffix] characters of [str] with [suffix]. *)
Definition g_str_has_suffix (str suffix : string) : bool :=
  let str_len := String.length str in
  let suffix_len := String.length suffix in
  if (str_len <? suffix_len)%nat then false
  else String.eqb (substring (str_len - suffix_len) suffix_len str) suffix.

(** Last character of a string, used to tell the extensions apart. *)
Fixpoint last_char (s : string) : option ascii :=
  match s with
  | EmptyString => None
  | String c EmptyString => Some c
  | String _ s' => last_char s'
  end.

(* ================================================================= *)
(** ** A state monad in which a computation may stop *)

(** A computation over a state [S] either returns a value and a state,
    or halts in a state and runs nothing that follows. *)
Inductive result (S A : Type) : Type :=
| Ok (a : A) (s : S)
| Halt (s : S).
Arguments Ok {S A} a s.
Arguments Halt {S A} s.

Definition M (S A : Type) : Type := S -> result S A.

Definition ret {S A} (a : A) : M S A := fun s => Ok a s.

Definition bind {S A B} (m : M S A) (f : A -> M S B) : M S B :=
  fun s => match m s with
           | Ok a s' => f a s'
           | Halt s' => Halt s'
           end.

Notation "x <- m ;; k" := (bind m (fun x => k))
  (at level 61, m at next level, right associativity).
Notation "m ;; k" := (bind m (fun _ => k))
  (at level 61, right associativity).

Definition state_of {S A} (r : result S A) : S :=
  match r with Ok _ s => s | Halt s => s end.

Definition value_of {S A} (r : result S A) : option A :=
  match r with Ok a _ => Some a | Halt _ => None end.

(** The C library's [strdup] and glib's [g_string_new] and
    [g_string_append], on string values. *)
Definition strdup (s : string) : string := s.
Definition g_string_new (init : string) : string := init.
Definition g_string_append (s val : string) : string := (s ++ val)%string.

(** The text of [log_info("Loaded plugin: %s", filename)]. *)
Definition loaded_message (filename : string) : string :=
  ("Loaded plugin: " ++ filename)%string.
Arguments loaded_message : simpl never.

(* ================================================================= *)
(** ** Data model *)

(** [lang_t] of [plugins/plugins.h]. *)
Inductive lang_t : Type := LANG_PYTHON | LANG_RUBY | LANG_LUA | LANG_C.

Definition lang_eqb (a b : lang_t) : bool :=
  match a, b with
  | LANG_PYTHON, LANG_PYTHON | LANG_RUBY, LANG_RUBY
  | LANG_LUA, LANG_LUA | LANG_C, LANG_C => true
  | _, _ => false
  end.

(** The notification hooks with the arguments the host passes along. *)
Inductive notification : Type :=
| OnStart
| OnConnect (account_name fulljid : string)
| OnDisconnect (account_name fulljid : string)
| OnShutdown.

(** The message-transform hooks with their fixed context arguments. *)
Inductive transform : Type :=
| BeforeMessageDisplayed
| OnMessageReceived (jid : string)
| OnPrivateMessageReceived (room nick : string)
| OnRoomMessageReceived (room nick : string)
| OnMessageSend (jid : string)
| OnPrivateMessageSend (room nick : string)
| OnRoomMessageSend (room : string).

Section Plugins.

(** Everything that lives outside [plugins.c]: the interpreters, the
    preferences, the log, the UI. *)
Variable W : Type.

(** A call through a plugin's hook pointer. The C caller sees either a
    return (with a value and a new outside world) or no return at all
    ([None]): the hooks return [void] or [char *], so a hook that fails
    without absorbing the failure itself can only do so by not coming
    back to the dispatcher (abort, exit, a non-local jump of the
    interpreter). *)
Definition hook (A : Type) : Type := W -> option (A * W).

(** Modelled from the spec: [struct ProfPlugin] is declared in
    [plugins/plugins.h]; the fields are the ones [plugins.c] reads. A
    [char *] result is [None] for [NULL]. The hook pointers take the plugin
    itself as first argument; here each field is already the plugin's own
    closure, so [plugin->f(plugin, x)] reads [f plugin x]. *)
Record ProfPlugin : Type := {
  name : string;
  lang : lang_t;
  init_func : string -> string -> hook unit;
  on_start_func : hook unit;
  on_connect_func : string -> string -> hook unit;
  on_disconnect_func : string -> string -> hook unit;
  before_message_displayed_func : string -> hook (option string);
  on_message_received_func : string -> string -> hook (option string);
  on_private_message_received_func :
    string -> string -> string -> hook (option string);
  on_room_message_received_func :
    string -> string -> string -> hook (option string);
  on_message_send_func : string -> string -> hook (option string);
  on_private_message_send_func :
    string -> string -> string -> hook (option string);
  on_room_message_send_func : string -> string -> hook (option string);
  on_shutdown_func : hook unit
}.

(** One language's embedding ([python_plugins.c], [ruby_plugins.c], ...):
    the four entry points [plugins.c] calls. [create] answers [None] for
    [NULL]. These entry points are taken to return. *)
Record Engine : Type := {
  env_init : W -> W;
  plugin_create : string -> W -> option ProfPlugin * W;
  plugin_destroy : ProfPlugin -> W -> W;
  env_shutdown : W -> W
}.

(** The collaborators and build-time constants of [plugins.c]. *)
Record Host : Type := {
  PROF_HAVE_PYTHON : bool;
  PROF_HAVE_RUBY : bool;
  PROF_HAVE_LUA : bool;
  PROF_HAVE_C : bool;
  engine : lang_t -> Engine;
  prefs_get_plugins : W -> option (list string);
  log_info : string -> W -> W;
  xdg_get_data_home : W -> string;
  PROF_PACKAGE_VERSION : string;
  PROF_PACKAGE_STATUS : string
}.

Variable host : Host.

(** What the program does to the outside, in order. *)
Inductive event : Type :=
| EnvInit (l : lang_t)
| PluginCreate (l : lang_t) (filename : string)
| LogInfo (msg : string)
| InitHook (p : ProfPlugin) (args : list string)
| NotifyHook (h : notification) (p : ProfPlugin)
| TransformHook (h : transform) (p : ProfPlugin) (message : string)
| PluginDestroy (l : lang_t) (p : ProfPlugin)
| EnvShutdown (l : lang_t).

(** Program state: the outside world, the file-scope [plugins] list and
    the trace of calls made so far. *)
Record state : Type := mkState {
  world : W;
  plugins : list ProfPlugin;
  trace : list event
}.

(* ================================================================= *)
(** ** Primitive steps *)

(** Computations of [plugins.c] over the program state. *)
Definition Run (A : Type) : Type := M state A.

Definition get_plugins : Run (list ProfPlugin) := fun s => Ok (plugins s) s.

Definition set_plugins (l : list ProfPlugin) : Run unit :=
  fun s => Ok tt (mkState (world s) l (trace s)).

Definition emit (e : event) : Run unit :=
  fun s => Ok tt (mkState (world s) (plugins s) (trace s ++ [e])).

(** A call that returns. *)
Definition extern {A} (f : W -> A * W) : Run A :=
  fun s => let (a, w) := f (world s) in Ok a (mkState w (plugins s) (trace s)).

Definition extern_ (f : W -> W) : Run unit := extern (fun w => (tt, f w)).

(** A read of the outside world. *)
Definition query {A} (f : W -> A) : Run A := fun s => Ok (f (world s)) s.

(** A call through a hook pointer. *)
Definition invoke {A} (c : hook A) : Run A :=
  fun s => match c (world s) with
           | Some (a, w) => Ok a (mkState w (plugins s) (trace s))
           | None => Halt s
           end.

(* ================================================================= *)
(** ** [plugins.c] *)

(** The engine entry points, by the names [plugins.c] calls them. *)
Definition lang_env_init (l : lang_t) : Run unit :=
  emit (EnvInit l) ;; extern_ (env_init (engine host l)).

Definition lang_plugin_create (l : lang_t) (filename : string)
  : Run (option ProfPlugin) :=
  emit (PluginCreate l filename) ;;
  extern (plugin_create (engine host l) filename).

Definition lang_plugin_destroy (l : lang_t) (p : ProfPlugin) : Run unit :=
  emit (PluginDestroy l p) ;; extern_ (plugin_destroy (engine host l) p).

Definition lang_shutdown (l : lang_t) : Run unit :=
  emit (EnvShutdown l) ;; extern_ (env_shutdown (engine host l)).

Definition python_env_init := lang_env_init LANG_PYTHON.
Definition ruby_env_init := lang_env_init LANG_RUBY.
Definition lua_env_init := lang_env_init LANG_LUA.
Definition c_env_init := lang_env_init LANG_C.

Definition python_plugin_create := lang_plugin_create LANG_PYTHON.
Definition ruby_plugin_create := lang_plugin_create LANG_RUBY.
Definition lua_plugin_create := lang_plugin_create LANG_LUA.
Definition c_plugin_create := lang_plugin_create LANG_C.

Definition python_plugin_destroy := lang_plugin_destroy LANG_PYTHON.
Definition ruby_plugin_destroy := lang_plugin_destroy LANG_RUBY.
Definition lua_plugin_destroy := lang_plugin_destroy LANG_LUA.
Definition c_plugin_destroy := lang_plugin_destroy LANG_C.

Definition python_shutdown := lang_shutdown LANG_PYTHON.
Definition ruby_shutdown := lang_shutdown LANG_RUBY.
Definition lua_shutdown := lang_shutdown LANG_LUA.
Definition c_shutdown := lang_shutdown LANG_C.

Definition do_log_info (msg : string) : Run unit :=
  emit (LogInfo msg) ;; extern_ (log_info host msg).

(** [#ifdef FLAG ... #endif] around a statement. *)
Definition ifdef (flag : bool) (body : Run unit) : Run unit :=
  if flag then body else ret tt.

(** [plugins = g_slist_append(plugins, plugin)]. *)
Definition g_slist_append (plugin : ProfPlugin) : Run unit :=
  l <- get_plugins ;; set_plugins (l ++ [plugin]).

(** One of the four blocks of the load loop's body (lines 83-118):
    under its [#ifdef], test the suffix, create, append on success.
    The blocks are independent [if]s, not an [else if] chain. *)
Definition load_block (flag : bool) (suffix : string)
    (create : string -> Run (option ProfPlugin))
    (filename : string) (loaded : bool) : Run bool :=
  if flag then
    if g_str_has_suffix filename suffix then
      plugin <- create filename ;;
      match plugin with
      | Some plugin => g_slist_append plugin ;; ret true
      | None => ret loaded
      end
    else ret loaded
  else ret loaded.

(** Body of the [for] loop of [plugins_init] (lines 81-121). *)
Definition load_file (filename : string) : Run unit :=
  let loaded := false in
  loaded <- load_block (PROF_HAVE_PYTHON host) ".py"
              python_plugin_create filename loaded ;;
  loaded <- load_block (PROF_HAVE_RUBY host) ".rb"
              ruby_plugin_create filename loaded ;;
  loaded <- load_block (PROF_HAVE_LUA host) ".lua"
              lua_plugin_create filename loaded ;;
  loaded <- load_block (PROF_HAVE_C host) ".so"
              c_plugin_create filename loaded ;;
  if loaded then do_log_info (loaded_message filename)
  else ret tt.

(** The [for] loop over [plugins_load] (lines 79-122). *)
Fixpoint load_files (plugins_load : list string) : Run unit :=
  match plugins_load with
  | [] => ret tt
  | filename :: rest => load_file filename ;; load_files rest
  end.

(** [plugin->init_func(plugin, PROF_PACKAGE_VERSION, PROF_PACKAGE_STATUS)]. *)
Definition call_init (plugin : ProfPlugin) : Run unit :=
  emit (InitHook plugin
          [PROF_PACKAGE_VERSION host; PROF_PACKAGE_STATUS host]) ;;
  invoke (init_func plugin (PROF_PACKAGE_VERSION host)
            (PROF_PACKAGE_STATUS host)).

(** The [while] loop that initialises the plugins (lines 125-130). *)
Fixpoint init_walk (curr : list ProfPlugin) : Run unit :=
  match curr with
  | [] => ret tt
  | plugin :: next => call_init plugin ;; init_walk next
  end.

Definition plugins_init : Run unit :=
  set_plugins [] ;;
  ifdef (PROF_HAVE_PYTHON host) python_env_init ;;
  ifdef (PROF_HAVE_RUBY host) ruby_env_init ;;
  ifdef (PROF_HAVE_LUA host) lua_env_init ;;
  ifdef (PROF_HAVE_C host) c_env_init ;;
  plugins_load <- query (prefs_get_plugins host) ;;
  match plugins_load with
  | Some plugins_load =>
      load_files plugins_load ;;
      curr <- get_plugins ;;
      init_walk curr
  | None => ret tt
  end.

Definition plugins_get_list : Run (list ProfPlugin) := get_plugins.

Definition plugins_get_lang_string (plugin : ProfPlugin) : string :=
  match lang plugin with
  | LANG_PYTHON => "Python"
  | LANG_RUBY => "Ruby"
  | LANG_LUA => "Lua"
  | LANG_C => "C"
  end.

(** The hook pointer a notification goes through. *)
Definition notify_func (h : notification) (plugin : ProfPlugin) : hook unit :=
  match h with
  | OnStart => on_start_func plugin
  | OnConnect account_name fulljid =>
      on_connect_func plugin account_name fulljid
  | OnDisconnect account_name fulljid =>
      on_disconnect_func plugin account_name fulljid
  | OnShutdown => on_shutdown_func plugin
  end.

Definition call_notify (h : notification) (plugin : ProfPlugin) : Run unit :=
  emit (NotifyHook h plugin) ;; invoke (notify_func h plugin).

(** The [while (curr != NULL)] loop shared by [plugins_on_start],
    [plugins_on_connect], [plugins_on_disconnect], [plugins_on_shutdown]. *)
Fixpoint notify_walk (h : notification) (curr : list ProfPlugin) : Run unit :=
  match curr with
  | [] => ret tt
  | plugin :: next => call_notify h plugin ;; notify_walk h next
  end.

Definition plugins_on_start : Run unit :=
  curr <- get_plugins ;;
  notify_walk OnStart curr.

Definition plugins_on_connect (account_name fulljid : string) : Run unit :=
  curr <- get_plugins ;;
  notify_walk (OnConnect account_name fulljid) curr.

Definition plugins_on_disconnect (account_name fulljid : string) : Run unit :=
  curr <- get_plugins ;;
  notify_walk (OnDisconnect account_name fulljid) curr.

(** The hook pointer a message transform goes through. *)
Definition transform_func (h : transform) (plugin : ProfPlugin)
  : string -> hook (option string) :=
  match h with
  | BeforeMessageDisplayed => before_message_displayed_func plugin
  | OnMessageReceived jid => on_message_received_func plugin jid
  | OnPrivateMessageReceived room nick =>
      on_private_message_received_func plugin room nick
  | OnRoomMessageReceived room nick =>
      on_room_message_received_func plugin room nick
  | OnMessageSend jid => on_message_send_func plugin jid
  | OnPrivateMessageSend room nick =>
      on_private_message_send_func plugin room nick
  | OnRoomMessageSend room => on_room_message_send_func plugin room
  end.

Definition call_transform (h : transform) (plugin : ProfPlugin)
    (curr_message : string) : Run (option string) :=
  emit (TransformHook h plugin curr_message) ;;
  invoke (transform_func h plugin curr_message).

(** The [while (curr != NULL)] loop shared by the seven message hooks
    (e.g. lines 206-217): call the hook on [curr_message]; a non-[NULL]
    [new_message] is copied into [curr_message]. *)
Fixpoint transform_walk (h : transform) (curr : list ProfPlugin)
    (curr_message : string) : Run string :=
  match curr with
  | [] => ret curr_message
  | plugin :: next =>
      new_message <- call_transform h plugin curr_message ;;
      match new_message with
      | Some new_message => transform_walk h next (strdup new_message)
      | None => transform_walk h next curr_message
      end
  end.

Definition plugins_before_message_displayed (message : string) : Run string :=
  curr <- get_plugins ;;
  transform_walk BeforeMessageDisplayed curr (strdup message).

Definition plugins_on_message_received (jid message : string) : Run string :=
  curr <- get_plugins ;;
  transform_walk (OnMessageReceived jid) curr (strdup message).

Definition plugins_on_private_message_received (room nick message : string)
  : Run string :=
  curr <- get_plugins ;;
  transform_walk (OnPrivateMessageReceived room nick) curr (strdup message).

Definition plugins_on_room_message_received (room nick message : string)
  : Run string :=
  curr <- get_plugins ;;
  transform_walk (OnRoomMessageReceived room nick) curr (strdup message).

Definition plugins_on_message_send (jid message : string) : Run string :=
  curr <- get_plugins ;;
  transform_walk (OnMessageSend jid) curr (strdup message).

Definition plugins_on_private_message_send (room nick message : string)
  : Run string :=
  curr <- get_plugins ;;
  transform_walk (OnPrivateMessageSend room nick) curr (strdup message).

Definition plugins_on_room_message_send (room message : string) : Run string :=
  curr <- get_plugins ;;
  transform_walk (OnRoomMessageSend room) curr (strdup message).

Definition plugins_on_shutdown : Run unit :=
  curr <- get_plugins ;;
  notify_walk OnShutdown curr.

(** Body of the [while] loop of [plugins_shutdown] (lines 366-385): four
    independent tests of the plugin's language tag. *)
Definition destroy_plugin (plugin : ProfPlugin) : Run unit :=
  ifdef (PROF_HAVE_PYTHON host)
    (if lang_eqb (lang plugin) LANG_PYTHON
     then python_plugin_destroy plugin else ret tt) ;;
  ifdef (PROF_HAVE_RUBY host)
    (if lang_eqb (lang plugin) LANG_RUBY
     then ruby_plugin_destroy plugin else ret tt) ;;
  ifdef (PROF_HAVE_LUA host)
    (if lang_eqb (lang plugin) LANG_LUA
     then lua_plugin_destroy plugin else ret tt) ;;
  ifdef (PROF_HAVE_C host)
    (if lang_eqb (lang plugin) LANG_C
     then c_plugin_destroy plugin else ret tt).

Fixpoint destroy_walk (curr : list ProfPlugin) : Run unit :=
  match curr with
  | [] => ret tt
  | plugin :: next => destroy_plugin plugin ;; destroy_walk next
  end.

Definition plugins_shutdown : Run unit :=
  curr <- get_plugins ;;
  destroy_walk curr ;;
  ifdef (PROF_HAVE_PYTHON host) python_shutdown ;;
  ifdef (PROF_HAVE_RUBY host) ruby_shutdown ;;
  ifdef (PROF_HAVE_LUA host) lua_shutdown ;;
  ifdef (PROF_HAVE_C host) c_shutdown.

Definition plugins_get_dir : Run string :=
  xdg_data <- query (xdg_get_data_home host) ;;
  let plugins_dir := g_string_new xdg_data in
  let plugins_dir := g_string_append plugins_dir "/profanity/plugins" in
  let result := strdup plugins_dir in
  ret result.

(** The dispatcher's entry points, by hook. *)
Definition plugins_notify (h : notification) : Run unit :=
  match h with
  | OnStart => plugins_on_start
  | OnConnect account_name fulljid => plugins_on_connect account_name fulljid
  | OnDisconnect account_name fulljid =>
      plugins_on_disconnect account_name fulljid
  | OnShutdown => plugins_on_shutdown
  end.

Definition plugins_transform (h : transform) (message : string) : Run string :=
  match h with
  | BeforeMessageDisplayed => plugins_before_message_displayed message
  | OnMessageReceived jid => plugins_on_message_received jid message
  | OnPrivateMessageReceived room nick =>
      plugins_on_private_message_received room nick message
  | OnRoomMessageReceived room nick =>
      plugins_on_room_message_received room nick message
  | OnMessageSend jid => plugins_on_message_send jid message
  | OnPrivateMessageSend room nick =>
      plugins_on_private_message_send room nick message
  | OnRoomMessageSend room => plugins_on_room_message_send room message
  end.

End Plugins.

Arguments mkState {W} world plugins trace.
Arguments EnvInit {W} l.
Arguments PluginCreate {W} l filename.
Arguments LogInfo {W} msg.
Arguments EnvShutdown {W} l.
Arguments get_plugins {W}.
Arguments set_plugins {W} l.
Arguments emit {W} e.
Arguments g_slist_append {W} plugin.
Arguments call_notify {W} h plugin.
Arguments notify_walk {W} h curr.
Arguments call_transform {W} h plugin curr_message.
Arguments transform_walk {W} h curr curr_message.
Arguments plugins_get_list {W}.
Arguments plugins_on_start {W}.
Arguments plugins_on_connect {W} account_name fulljid.
Arguments plugins_on_disconnect {W} account_name fulljid.
Arguments plugins_on_shutdown {W}.
Arguments plugins_before_message_displayed {W} message.
Arguments plugins_on_message_received {W} jid message.
Arguments plugins_on_private_message_received {W} room nick message.
Arguments plugins_on_room_message_received {W} room nick message.
Arguments plugins_on_message_send {W} jid message.
Arguments plugins_on_private_message_send {W} room nick message.
Arguments plugins_on_room_message_send {W} room message.
Arguments plugins_notify {W} h.
Arguments plugins_transform {W} h message.

(* ================================================================= *)
(** ** The design document's reading of the loader and the dispatcher *)

(** The four languages, in the order [plugins.c] treats them. *)
Definition all_langs : list lang_t :=
  [LANG_PYTHON; LANG_RUBY; LANG_LUA; LANG_C].

(** The file-extension table (design document, section 6). *)
Definition extension_language (filename : string) : option lang_t :=
  if g_str_has_suffix filename ".py" then Some LANG_PYTHON
  else if g_str_has_suffix filename ".rb" then Some LANG_RUBY
  else if g_str_has_suffix filename ".lua" then Some LANG_LUA
  else if g_str_has_suffix filename ".so" then Some LANG_C
  else None.

(** What the four suffix tests of the load loop can answer together. *)
Inductive suffix_case (filename : string) : option lang_t -> Prop :=
| case_py :
    g_str_has_suffix filename ".py" = true ->
    g_str_has_suffix filename ".rb" = false ->
    g_str_has_suffix filename ".lua" = false ->
    g_str_has_suffix filename ".so" = false ->
    suffix_case filename (Some LANG_PYTHON)
| case_rb :
    g_str_has_suffix filename ".py" = false ->
    g_str_has_suffix filename ".rb" = true ->
    g_str_has_suffix filename ".lua" = false ->
    g_str_has_suffix filename ".so" = false ->
    suffix_case filename (Some LANG_RUBY)
| case_lua :
    g_str_has_suffix filename ".py" = false ->
    g_str_has_suffix filename ".rb" = false ->
    g_str_has_suffix filename ".lua" = true ->
    g_str_has_suffix filename ".so" = false ->
    suffix_case filename (Some LANG_LUA)
| case_so :
    g_str_has_suffix filename ".py" = false ->
    g_str_has_suffix filename ".rb" = false ->
    g_str_has_suffix filename ".lua" = false ->
    g_str_has_suffix filename ".so" = true ->
    suffix_case filename (Some LANG_C)
| case_none :
    g_str_has_suffix filename ".py" = false ->
    g_str_has_suffix filename ".rb" = false ->
    g_str_has_suffix filename ".lua" = false ->
    g_str_has_suffix filename ".so" = false ->
    suffix_case filename None.

Section Reading.

Variable W : Type.
Variable host : Host W.

(** Whether a language's engine is compiled in. *)
Definition enabled (l : lang_t) : bool :=
  match l with
  | LANG_PYTHON => PROF_HAVE_PYTHON host
  | LANG_RUBY => PROF_HAVE_RUBY host
  | LANG_LUA => PROF_HAVE_LUA host
  | LANG_C => PROF_HAVE_C host
  end.

(** A filename the loader hands to an engine. *)
Definition loadable (filename : string) : bool :=
  match extension_language filename with
  | Some l => enabled l
  | None => false
  end.

(** The outside world once every enabled engine has been brought up. *)
Definition boot_world (w : W) : W :=
  fold_left (fun w l => env_init (engine host l) w)
            (filter enabled all_langs) w.

(** The loader as the design document words it (section 4.2): for each
    filename in order, find the language by extension; if its engine is
    enabled, create; on success keep the plugin and log; otherwise skip.
    Answers the created plugins with their filenames, and the world. *)
Fixpoint load_spec (filenames : list string) (w : W)
  : list (string * ProfPlugin W) * W :=
  match filenames with
  | [] => ([], w)
  | filename :: rest =>
      match extension_language filename with
      | Some l =>
          if enabled l then
            match plugin_create (engine host l) filename w with
            | (Some plugin, w1) =>
                let w2 := log_info host (loaded_message filename) w1 in
                let (created, w3) := load_spec rest w2 in
                ((filename, plugin) :: created, w3)
            | (None, w1) => load_spec rest w1
            end
          else load_spec rest w
      | None => load_spec rest w
      end
  end.

(** The value a fold step carries on: a replacement if there is one. *)
Definition replace_or_keep (current : string) (r : option string) : string :=
  match r with
  | Some replacement => replacement
  | None => current
  end.

(** One step of the message fold (section 4.3): run what came before,
    invoke the plugin's hook on the current value, carry on with the
    replacement or with the current value. *)
Definition transform_step (h : transform) (acc : Run W string)
    (plugin : ProfPlugin W) : Run W string :=
  current <- acc ;;
  r <- call_transform h plugin current ;;
  ret (replace_or_keep current r).

Definition transform_fold (h : transform) (registry : list (ProfPlugin W))
    (message : string) : Run W string :=
  fold_left (transform_step h) registry (ret message).

(** The program state once [plugins_init] has reset the registry and
    brought up the enabled engines, when it calls [prefs_get_plugins]. *)
Definition booted (s : state W) : state W :=
  mkState (boot_world (world s)) []
          (trace s ++ map EnvInit (filter enabled all_langs)).

(** What the loop body of a message hook makes of a hook's answer on
    [current]: the next current value and the world, if the hook returns. *)
Definition settle (current : string) (r : option (option string * W))
  : option (string * W) :=
  match r with
  | Some (new_message, w) => Some (replace_or_keep current new_message, w)
  | None => None
  end.

(** Two plugins the dispatcher cannot tell apart on hook [h]. *)
Definition same_effect (h : transform) (p q : ProfPlugin W) : Prop :=
  forall message w,
    settle message (transform_func h p message w) =
    settle message (transform_func h q message w).

(** Filenames handed to an engine's [create] in a trace. *)
Definition created_file (e : event W) : option string :=
  match e with
  | PluginCreate _ filename => Some filename
  | _ => None
  end.

Fixpoint created_files (tr : list (event W)) : list string :=
  match tr with
  | [] => []
  | e :: tr' =>
      match created_file e with
      | Some f => f :: created_files tr'
      | None => created_files tr'
      end
  end.

(** Events of the bring-up and load phase. *)
Definition is_loading (e : event W) : bool :=
  match e with
  | EnvInit _ | PluginCreate _ _ | LogInfo _ => true
  | _ => false
  end.

(** The message handed to a plugin by a transform call. *)
Definition event_input (e : event W) : option string :=
  match e with
  | TransformHook _ _ message => Some message
  | _ => None
  end.

(** [p] answers like [q], except that it returns its input unchanged
    wherever [q] returns no value. *)
Definition echoes_where_silent (h : transform) (p q : ProfPlugin W) : Prop :=
  forall message w,
    match transform_func h q message w with
    | Some (None, w') => transform_func h p message w = Some (Some message, w')
    | r => transform_func h p message w = r
    end.

(** C6 as the design document words it: whatever the plugins' hooks do,
    the dispatcher comes back to the host and the hook has been
    dispatched to every plugin of the registry, in order. *)
Definition notification_reaches_all (h : notification) (s : state W) : Prop :=
  exists s',
    plugins_notify h s = Ok tt s' /\
    trace s' = trace s ++ map (NotifyHook h) (plugins s).

(** C3 as the design document words it, for the arguments of init: each
    plugin of the registry receives a host name, the version and the
    status. *)
Definition init_gets_name_version_status (s : state W) : Prop :=
  let s' := state_of (plugins_init host s) in
  forall p, In p (plugins s') ->
    exists host_name,
      In (InitHook p [host_name; PROF_PACKAGE_VERSION host;
                      PROF_PACKAGE_STATUS host]) (trace s').

End Reading.

(** [l1] is [l2] with some elements left out. *)
Inductive subseq {A : Type} : list A -> list A -> Prop :=
| subseq_nil : subseq [] []
| subseq_skip x l1 l2 : subseq l1 l2 -> subseq l1 (x :: l2)
| subseq_keep x l1 l2 : subseq l1 l2 -> subseq (x :: l1) (x :: l2).

(* ================================================================= *)
(** ** What a trace shows *)

(** The extension the load loop tests for each language (lines 84, 93,
    102, 111). *)
Definition extension_of (l : lang_t) : string :=
  match l with
  | LANG_PYTHON => ".py"
  | LANG_RUBY => ".rb"
  | LANG_LUA => ".lua"
  | LANG_C => ".so"
  end.

Section Observations.

Variable W : Type.

Definition is_env_init (e : event W) : bool :=
  match e with
  | EnvInit _ => true
  | _ => false
  end.

(** Events of the load loop proper. *)
Definition is_load_step (e : event W) : bool :=
  match e with
  | PluginCreate _ _ | LogInfo _ => true
  | _ => false
  end.

(** Events [plugins_init] can give rise to. *)
Definition is_init_phase (e : event W) : bool :=
  match e with
  | EnvInit _ | PluginCreate _ _ | LogInfo _ | InitHook _ _ => true
  | _ => false
  end.

(** The texts handed to [log_info] in a trace. *)
Fixpoint logged (tr : list (event W)) : list string :=
  match tr with
  | [] => []
  | LogInfo msg :: tr' => msg :: logged tr'
  | _ :: tr' => logged tr'
  end.

(** A call of a message hook: the plugin and the message it was given. *)
Definition transform_call (h : transform) (c : ProfPlugin W * string)
  : event W :=
  TransformHook h (fst c) (snd c).

End Observations.

(* ================================================================= *)
(** ** Message buffers *)

(** The message hooks of [plugins.c] pass [char *] buffers around:
    [strdup] allocates, [free] releases, and a hook's non-[NULL] answer
    is a buffer the loop releases after copying it (lines 209-213). The
    walks above keep the text of the buffers only; this section keeps
    the buffers themselves, to tell a hook that answers with a buffer of
    its own from one that hands back the buffer it was given. *)

(** The text of buffer [p] among the allocated buffers, if it is one. *)
Fixpoint buffer_text (p : nat) (allocated : list (nat * string))
  : option string :=
  match allocated with
  | [] => None
  | (a, text) :: rest =>
      if Nat.eqb a p then Some text else buffer_text p rest
  end.

(** The allocated buffers without buffer [p]. *)
Definition release (p : nat) (allocated : list (nat * string))
  : list (nat * string) :=
  filter (fun b => negb (Nat.eqb (fst b) p)) allocated.

(** What the host sees of a message hook. *)
Inductive observed : Type :=
| Answered (text : option string)
| NeverReturned
| UndefinedBehaviour.

Section Buffers.

Variable W : Type.

(** Whether the non-[NULL] answer of plugin [p] to hook [h], on a
    message and in a world, is the very buffer the hook was given. The
    hook pointers say [char *] and no more. *)
Variable hands_back : transform -> ProfPlugin W -> string -> W -> bool.

(** The program state with the heap of message buffers: the allocated
    buffers with their text, the next address [strdup] hands out, and
    whether a released buffer has been read or released again. *)
Record memory : Type := mkMemory {
  prog : state W;
  allocated : list (nat * string);
  next_buffer : nat;
  faulted : bool
}.

Definition Mem (A : Type) : Type := M memory A.

(** A computation of the program proper, the heap untouched. *)
Definition in_program {A} (m : Run W A) : Mem A :=
  fun b =>
    match m (prog b) with
    | Ok a s => Ok a (mkMemory s (allocated b) (next_buffer b) (faulted b))
    | Halt s => Halt (mkMemory s (allocated b) (next_buffer b) (faulted b))
    end.

(** Use of a released buffer: the C standard leaves what follows
    undefined; the run ends here. *)
Definition fault {A} : Mem A :=
  fun b => Halt (mkMemory (prog b) (allocated b) (next_buffer b) true).

(** [strdup] of a text: a new buffer holding it. *)
Definition strdup_text (text : string) : Mem nat :=
  fun b =>
    Ok (next_buffer b)
       (mkMemory (prog b) ((next_buffer b, text) :: allocated b)
                 (S (next_buffer b)) (faulted b)).

(** [strdup(p)]: reads buffer [p]. *)
Definition buffer_strdup (p : nat) : Mem nat :=
  fun b =>
    match buffer_text p (allocated b) with
    | Some text => strdup_text text b
    | None => fault b
    end.

(** [free(p)]. *)
Definition buffer_free (p : nat) : Mem unit :=
  fun b =>
    match buffer_text p (allocated b) with
    | Some _ =>
        Ok tt (mkMemory (prog b) (release p (allocated b))
                        (next_buffer b) (faulted b))
    | None => fault b
    end.

(** [new_message = plugin->..._func(plugin, ..., curr_message)] on
    buffers: the hook reads [curr_message]; its answer is [NULL], the
    buffer it was given, or a buffer of its own. *)
Definition call_transform_buffer (h : transform) (plugin : ProfPlugin W)
    (curr_message : nat) : Mem (option nat) :=
  fun b =>
    match buffer_text curr_message (allocated b) with
    | None => fault b
    | Some text =>
        let given := hands_back h plugin text (world (prog b)) in
        (answer <- in_program (call_transform h plugin text) ;;
         match answer with
         | None => ret None
         | Some answer =>
             if given then ret (Some curr_message)
             else new_message <- strdup_text answer ;; ret (Some new_message)
         end) b
    end.

(** The loop of a message hook on buffers (e.g. lines 206-215). *)
Fixpoint buffer_walk (h : transform) (curr : list (ProfPlugin W))
    (curr_message : nat) : Mem nat :=
  match curr with
  | [] => ret curr_message
  | plugin :: next =>
      new_message <- call_transform_buffer h plugin curr_message ;;
      match new_message with
      | Some new_message =>
          buffer_free curr_message ;;
          curr_message <- buffer_strdup new_message ;;
          buffer_free new_message ;;
          buffer_walk h next curr_message
      | None => buffer_walk h next curr_message
      end
  end.

(** A message hook on buffers: [plugins_transform h], with
    [curr_message = strdup(message)] a buffer and the result the buffer
    returned to the caller. *)
Definition plugins_transform_buffers (h : transform) (message : string)
  : Mem nat :=
  curr <- in_program get_plugins ;;
  curr_message <- strdup_text message ;;
  buffer_walk h curr curr_message.

(** The memory after a loop body whose hook answered in a buffer of its
    own: the answer was handed out at [next_buffer b], its copy right
    after; the current buffer and the answer are released. *)
Definition replaced (h : transform) (p : ProfPlugin W) (c : nat)
    (b : memory) (text answer : string) (w' : W) : memory :=
  mkMemory (mkState w' (plugins (prog b))
              (trace (prog b) ++ [TransformHook h p text]))
           ((S (next_buffer b), answer)
            :: release (next_buffer b) (release c (allocated b)))
           (S (S (next_buffer b))) (faulted b).

(** What the host sees: the text of the buffer it gets back, no return,
    or undefined behaviour. *)
Definition observe (r : result memory nat) : observed :=
  match r with
  | Ok p b => Answered (buffer_text p (allocated b))
  | Halt b => if faulted b then UndefinedBehaviour else NeverReturned
  end.

(** A heap [strdup] can work on: the addresses in use are below the
    next one handed out, and nothing undefined has happened. *)
Definition tidy (b : memory) : Prop :=
  Forall (fun a => fst a < next_buffer b) (allocated b) /\
  faulted b = false.

(** The same memory with another registry. *)
Definition with_registry (registry : list (ProfPlugin W)) (b : memory)
  : memory :=
  mkMemory (mkState (world (prog b)) registry (trace (prog b)))
           (allocated b) (next_buffer b) (faulted b).

(** Two runs the host and the plugins cannot tell apart: the same
    outcome, the same outside world, the same messages handed to the
    plugins. *)
Definition same_outcome (r1 r2 : result memory nat) : Prop :=
  observe r1 = observe r2 /\
  world (prog (state_of r1)) = world (prog (state_of r2)) /\
  map (@event_input W) (trace (prog (state_of r1))) =
  map (@event_input W) (trace (prog (state_of r2))).

(** [p] answers like [q], in the same buffers, except that where [q]
    answers no value [p] answers a copy of its input in a buffer of its
    own. *)
Definition copies_where_silent (h : transform) (p q : ProfPlugin W) : Prop :=
  forall message w,
    match transform_func h q message w with
    | Some (None, w') =>
        transform_func h p message w = Some (Some message, w') /\
        hands_back h p message w = false
    | r =>
        transform_func h p message w = r /\
        hands_back h p message w = hands_back h q message w
    end.

(** Plugins whose answers lead the loop the same way. *)
Definition buffer_alike (h : transform) (p q : ProfPlugin W) : Prop :=
  forall message w,
    (transform_func h p message w = transform_func h q message w /\
     hands_back h p message w = hands_back h q message w) \/
    (exists w',
       transform_func h q message w = Some (None, w') /\
       transform_func h p message w = Some (Some message, w') /\
       hands_back h p message w = false).

(** C8 as the design document words it, on buffers: a plugin that
    returns its input where another returns no value gives the same
    outcome, whichever buffer it returns it in. *)
Definition echo_treated_as_no_value (h : transform) (p q : ProfPlugin W)
    (before after : list (ProfPlugin W)) (message : string) (b : memory)
  : Prop :=
  echoes_where_silent h p q ->
  same_outcome
    (plugins_transform_buffers h message (with_registry (before ++ p :: after) b))
    (plugins_transform_buffers h message (with_registry (before ++ q :: after) b)).

End Buffers.

Arguments mkMemory {W} prog allocated next_buffer faulted.
Arguments fault {W A}.
Arguments strdup_text {W} text.
Arguments buffer_strdup {W} p.
Arguments buffer_free {W} p.
Arguments in_program {W A} m.
Arguments observe {W} r.
Arguments tidy {W} b.
Arguments with_registry {W} registry b.
Arguments replaced {W} h p c b text answer w'.
Arguments same_outcome {W} r1 r2.

(* ================================================================= *)
(** ** Sample plugins and hosts *)

Module Sample.

(** The outside world counts the calls made into it. *)
Definition World : Type := nat.

Definition returns {A} (a : A) : hook World A := fun w => Some (a, S w).
Definition fails {A} : hook World A := fun _ => None.

Definition make_plugin (name : string) (lang : lang_t)
    (notify : hook World unit)
    (reply : string -> hook World (option string)) : ProfPlugin World :=
  {| name := name; lang := lang;
     init_func := fun _ _ => notify;
     on_start_func := notify;
     on_connect_func := fun _ _ => notify;
     on_disconnect_func := fun _ _ => notify;
     before_message_displayed_func := reply;
     on_message_received_func := fun _ => reply;
     on_private_message_received_func := fun _ _ => reply;
     on_room_message_received_func := fun _ _ => reply;
     on_message_send_func := fun _ => reply;
     on_private_message_send_func := fun _ _ => reply;
     on_room_message_send_func := fun _ => reply;
     on_shutdown_func := notify |}.

(** Always answers [r]. *)
Definition steady (name : string) (lang : lang_t) (r : option string)
  : ProfPlugin World :=
  make_plugin name lang (returns tt) (fun _ => returns r).

(** Returns its input unchanged. *)
Definition echoing (name : string) (lang : lang_t) : ProfPlugin World :=
  make_plugin name lang (returns tt) (fun m => returns (Some m)).

(** Its notification hooks do not return. *)
Definition failing (name : string) (lang : lang_t) : ProfPlugin World :=
  make_plugin name lang fails (fun _ => returns None).

(** An engine whose [create] refuses files called [broken.*]. *)
Definition sample_engine (l : lang_t) : Engine World :=
  {| env_init := S;
     plugin_create := fun filename w =>
       (if prefix "broken" filename then None
        else Some (steady filename l None), S w);
     plugin_destroy := fun _ => S;
     env_shutdown := S |}.

Definition sample_host (py rb lua c : bool) (prefs : option (list string))
  : Host World :=
  {| PROF_HAVE_PYTHON := py; PROF_HAVE_RUBY := rb;
     PROF_HAVE_LUA := lua; PROF_HAVE_C := c;
     engine := sample_engine;
     prefs_get_plugins := fun _ => prefs;
     log_info := fun _ => S;
     xdg_get_data_home := fun _ => "/home/user/.local/share";
     PROF_PACKAGE_VERSION := "0.4.0";
     PROF_PACKAGE_STATUS := "development" |}.

Definition start (registry : list (ProfPlugin World)) : state World :=
  mkState 0 registry [].


Definition py_lua_host (prefs : option (list string)) : Host World :=
  sample_host true false true false prefs.

Definition plugin_A := steady "a.py" LANG_PYTHON (Some "A"%string).
Definition plugin_silent := steady "quiet.lua" LANG_LUA None.
Definition plugin_B := steady "b.py" LANG_PYTHON (Some "B"%string).
Definition plugin_echo := echoing "echo.py" LANG_PYTHON.
Definition plugin_crash := failing "crash.py" LANG_PYTHON.

(** An engine whose [create] never refuses; the plugins it makes from
    files called [crash.*] have hooks that do not return. *)
Definition fragile_engine (l : lang_t) : Engine World :=
  {| env_init := S;
     plugin_create := fun filename w =>
       (Some (if prefix "crash" filename then failing filename l
              else steady filename l None), S w);
     plugin_destroy := fun _ => S;
     env_shutdown := S |}.

Definition fragile_host (prefs : option (list string)) : Host World :=
  {| PROF_HAVE_PYTHON := true; PROF_HAVE_RUBY := false;
     PROF_HAVE_LUA := true; PROF_HAVE_C := false;
     engine := fragile_engine;
     prefs_get_plugins := fun _ => prefs;
     log_info := fun _ => S;
     xdg_get_data_home := fun _ => "/home/user/.local/share";
     PROF_PACKAGE_VERSION := "0.4.0";
     PROF_PACKAGE_STATUS := "development" |}.

(** A plugin whose notification hooks return in the initial world only:
    once anything has been called, they do not come back. *)
Definition mortal (name : string) (lang : lang_t) : ProfPlugin World :=
  make_plugin name lang
    (fun w => if Nat.eqb w 0 then Some (tt, S w) else None)
    (fun _ => returns None).

Definition plugin_mortal := mortal "mortal.py" LANG_PYTHON.

(** Every answer is the buffer the hook was given. *)
Definition given_always
  : transform -> ProfPlugin World -> string -> World -> bool :=
  fun _ _ _ _ => true.

(** Every answer is a buffer of the plugin's own. *)
Definition given_never
  : transform -> ProfPlugin World -> string -> World -> bool :=
  fun _ _ _ _ => false.

(** An empty heap around the initial program state. *)
Definition fresh_memory (registry : list (ProfPlugin World)) : memory World :=
  mkMemory (start registry) [] 0 false.

End Sample.

(* ================================================================= *)
(** ** Facts about suffixes *)

Lemma substring_whole (s : string) : substring 0 (String.length s) s = s.
Proof.
  induction s as [|c s IH]; simpl; [reflexivity | now rewrite IH].
Qed.

Lemma last_char_cons (c : ascii) (s : string) :
  s <> EmptyString -> last_char (String c s) = last_char s.
Proof.
  destruct s; [congruence | reflexivity].
Qed.

Lemma last_char_substring (s : string) :
  forall n, n < String.length s ->
    last_char (substring n (String.length s - n) s) = last_char s.
Proof.
  induction s as [|c s IH]; intros n Hn; simpl in Hn; [lia|].
  destruct n as [|n].
  - rewrite Nat.sub_0_r, substring_whole. reflexivity.
  - assert (Hs : s <> EmptyString) by (destruct s; simpl in *; [lia | congruence]).
    rewrite last_char_cons by exact Hs.
    change (substring (S n) (String.length (String c s) - S n) (String c s))
      with (substring n (String.length s - n) s).
    apply IH. lia.
Qed.

(** A string that ends in a non-empty suffix ends in its last character. *)
Lemma has_suffix_last_char (str suffix : string) :
  suffix <> EmptyString ->
  g_str_has_suffix str suffix = true ->
  last_char str = last_char suffix.
Proof.
  intros Hne H. unfold g_str_has_suffix in H.
  destruct (Nat.ltb_spec (String.length str) (String.length suffix)) as [|Hle];
    [discriminate|].
  apply String.eqb_eq in H.
  assert (Hpos : 0 < String.length suffix)
    by (destruct suffix; simpl; [congruence | lia]).
  pose proof (last_char_substring str
                (n := String.length str - String.length suffix)) as E.
  replace (String.length str - (String.length str - String.length suffix))
    with (String.length suffix) in E by lia.
  rewrite H in E. symmetry. apply E. lia.
Qed.

Lemma length_app_string (s1 s2 : string) :
  String.length (s1 ++ s2)%string = String.length s1 + String.length s2.
Proof.
  induction s1 as [|c s1 IH]; simpl; [reflexivity | now rewrite IH].
Qed.

Lemma substring_split (s : string) :
  forall n, n <= String.length s ->
    s = (substring 0 n s ++ substring n (String.length s - n) s)%string.
Proof.
  induction s as [|c s IH]; intros n Hn; simpl in Hn.
  - destruct n; reflexivity.
  - destruct n as [|n].
    + rewrite Nat.sub_0_r, substring_whole. reflexivity.
    + simpl. f_equal. apply IH. lia.
Qed.

Lemma substring_after_prefix (prefix suffix : string) :
  substring (String.length prefix) (String.length suffix)
            (prefix ++ suffix)%string = suffix.
Proof.
  induction prefix as [|c prefix IH]; simpl;
    [apply substring_whole | exact IH].
Qed.

(** [g_str_has_suffix] holds exactly of the strings that end in the
    suffix. *)
Lemma g_str_has_suffix_spec (str suffix : string) :
  g_str_has_suffix str suffix = true <->
  exists prefix, str = (prefix ++ suffix)%string.
Proof.
  unfold g_str_has_suffix. split.
  - intros H.
    destruct (Nat.ltb_spec (String.length str) (String.length suffix))
      as [|Hle]; [discriminate|].
    apply String.eqb_eq in H.
    exists (substring 0 (String.length str - String.length suffix) str).
    assert (E := substring_split str
                   (n := String.length str - String.length suffix)).
    replace (String.length str - (String.length str - String.length suffix))
      with (String.length suffix) in E by lia.
    rewrite H in E. apply E. lia.
  - intros [prefix ->]. rewrite length_app_string.
    destruct (Nat.ltb_spec (String.length prefix + String.length suffix)
                (String.length suffix)) as [Hlt|_]; [lia|].
    replace (String.length prefix + String.length suffix - String.length suffix)
      with (String.length prefix) by lia.
    rewrite substring_after_prefix. apply String.eqb_refl.
Qed.

Example suffix_py : g_str_has_suffix "a.py" ".py" = true.
Proof. reflexivity. Qed.

Example suffix_pyc : g_str_has_suffix "a.pyc" ".py" = false.
Proof. reflexivity. Qed.

Example suffix_too_short : g_str_has_suffix "py" ".py" = false.
Proof. reflexivity. Qed.

Example extension_lua : extension_language "c.lua" = Some LANG_LUA.
Proof. reflexivity. Qed.

Example extension_unknown : extension_language "b.xyz" = None.
Proof. reflexivity. Qed.

(** The four extensions exclude one another. *)
Lemma suffixes_exclusive (filename s1 s2 : string) :
  s1 <> EmptyString -> s2 <> EmptyString ->
  last_char s1 <> last_char s2 ->
  g_str_has_suffix filename s1 = true ->
  g_str_has_suffix filename s2 = false.
Proof.
  intros H1 H2 Hd Hs.
  destruct (g_str_has_suffix filename s2) eqn:E; [|reflexivity].
  apply has_suffix_last_char in Hs; [|exact H1].
  apply has_suffix_last_char in E; [|exact H2].
  congruence.
Qed.

Ltac other_suffix H :=
  eapply suffixes_exclusive; [ | | | exact H];
  [discriminate | discriminate | simpl; discriminate].

Lemma extension_language_case (filename : string) :
  suffix_case filename (extension_language filename).
Proof.
  unfold extension_language.
  destruct (g_str_has_suffix filename ".py") eqn:Epy.
  { apply case_py; [exact Epy | other_suffix Epy ..]. }
  destruct (g_str_has_suffix filename ".rb") eqn:Erb.
  { apply case_rb; [exact Epy | exact Erb | other_suffix Erb ..]. }
  destruct (g_str_has_suffix filename ".lua") eqn:Elua.
  { apply case_lua; [exact Epy | exact Erb | exact Elua | other_suffix Elua]. }
  destruct (g_str_has_suffix filename ".so") eqn:Eso;
    [apply case_so | apply case_none]; assumption.
Qed.

(* ================================================================= *)
(** ** Properties *)

Section Properties.

Context {W : Type}.
Variable host : Host W.

Abbreviation VERSION := (PROF_PACKAGE_VERSION host).
Abbreviation STATUS := (PROF_PACKAGE_STATUS host).

(** Unfold one layer of monadic plumbing. *)
Ltac run :=
  unfold bind, ret, emit, extern_, extern, invoke, query, get_plugins,
    set_plugins, g_slist_append, ifdef, do_log_info; simpl.

Lemma bind_ret_r {S A} (m : M S A) (s : S) : (x <- m ;; ret x) s = m s.
Proof. unfold bind, ret. destruct (m s); reflexivity. Qed.

Lemma bind_assoc {S A B C} (m : M S A) (f : A -> M S B) (g : B -> M S C) s :
  (y <- (x <- m ;; f x) ;; g y) s = (x <- m ;; y <- f x ;; g y) s.
Proof. unfold bind. destruct (m s); reflexivity. Qed.

(** *** Bring-up and load *)

(** The four blocks of the loop body amount to one look-up in the
    extension table. *)
Lemma load_file_run (filename : string) (s : state W) :
  load_file host filename s =
  match extension_language filename with
  | Some l =>
      if enabled host l then
        match plugin_create (engine host l) filename (world s) with
        | (Some plugin, w1) =>
            Ok tt (mkState
                     (log_info host (loaded_message filename) w1)
                     (plugins s ++ [plugin])
                     (trace s ++ [PluginCreate l filename;
                                  LogInfo (loaded_message filename)]))
        | (None, w1) =>
            Ok tt (mkState w1 (plugins s)
                     (trace s ++ [PluginCreate l filename]))
        end
      else Ok tt s
  | None => Ok tt s
  end.
Proof.
  unfold load_file, load_block, enabled.
  destruct (extension_language_case filename) as [E1 E2 E3 E4|E1 E2 E3 E4
    |E1 E2 E3 E4|E1 E2 E3 E4|E1 E2 E3 E4];
    rewrite E1, E2, E3, E4;
    destruct (PROF_HAVE_PYTHON host), (PROF_HAVE_RUBY host),
      (PROF_HAVE_LUA host), (PROF_HAVE_C host);
    try reflexivity;
    unfold python_plugin_create, ruby_plugin_create, lua_plugin_create,
      c_plugin_create, lang_plugin_create; run;
    match goal with
    | |- context [plugin_create ?e ?f ?w] =>
        destruct (plugin_create e f w) as [[plugin|] w1]
    end; run; rewrite <- ?app_assoc; reflexivity.
Qed.

(** The load loop always runs to its end; it leaves the registry, the
    world and the trace the design document describes. *)
Lemma load_files_run (filenames : list string) :
  forall s : state W,
  exists s' tr,
    load_files host filenames s = Ok tt s' /\
    plugins s' = plugins s ++ map snd (fst (load_spec host filenames (world s))) /\
    world s' = snd (load_spec host filenames (world s)) /\
    trace s' = trace s ++ tr /\
    forallb (@is_loading W) tr = true /\
    created_files tr = filter (loadable host) filenames.
Proof.
  induction filenames as [|filename rest IH]; intros s.
  - exists s, []. simpl. rewrite !app_nil_r. repeat split; reflexivity.
  - cbn [load_files]. unfold bind at 1. rewrite load_file_run.
    cbn [load_spec filter]. unfold loadable at 1.
    destruct (extension_language filename) as [l|].
    + destruct (enabled host l).
      * destruct (plugin_create (engine host l) filename (world s))
          as [[plugin|] w1].
        -- match goal with |- context [load_files host rest ?s1] =>
             destruct (IH s1) as (s' & tr & Hr & Hp & Hw & Ht & Hl & Hc) end.
           simpl in Hp, Hw, Ht.
           destruct (load_spec host rest
                       (log_info host (loaded_message filename) w1))
             as [created w3] eqn:E.
           exists s', (PluginCreate l filename
                       :: LogInfo (loaded_message filename) :: tr).
           simpl in *. rewrite Hr, Hp, Hw, Ht, Hl, Hc, <- !app_assoc.
           repeat split; reflexivity.
        -- match goal with |- context [load_files host rest ?s1] =>
             destruct (IH s1) as (s' & tr & Hr & Hp & Hw & Ht & Hl & Hc) end.
           simpl in Hp, Hw, Ht.
           exists s', (PluginCreate l filename :: tr).
           simpl in *. rewrite Hr, Hp, Hw, Ht, Hl, Hc, <- !app_assoc.
           repeat split; reflexivity.
      * destruct (IH s) as (s' & tr & Hr & Hp & Hw & Ht & Hl & Hc).
        exists s', tr. repeat split; assumption.
    + destruct (IH s) as (s' & tr & Hr & Hp & Hw & Ht & Hl & Hc).
      exists s', tr. repeat split; assumption.
Qed.

(** The filenames of the plugins the loader keeps are the input list
    with some filenames left out. *)
Lemma load_spec_subseq (filenames : list string) :
  forall w, subseq (map fst (fst (load_spec host filenames w))) filenames.
Proof.
  induction filenames as [|filename rest IH]; intros w; simpl.
  - constructor.
  - destruct (extension_language filename) as [l|];
      [destruct (enabled host l);
       [destruct (plugin_create (engine host l) filename w) as [[plugin|] w1]|]|];
      try (apply subseq_skip, IH).
    specialize (IH (log_info host (loaded_message filename) w1)).
    destruct (load_spec host rest _) as [created w3].
    simpl in *. apply subseq_keep, IH.
Qed.

(** Every plugin the loader keeps was created, from its filename, by
    the enabled engine its extension maps to. *)
Lemma load_spec_created (filenames : list string) :
  forall w filename plugin,
    In (filename, plugin) (fst (load_spec host filenames w)) ->
    exists l w0,
      extension_language filename = Some l /\ enabled host l = true /\
      fst (plugin_create (engine host l) filename w0) = Some plugin.
Proof.
  induction filenames as [|f rest IH]; intros w filename plugin Hin; simpl in Hin.
  - contradiction.
  - destruct (extension_language f) as [l|] eqn:El; [|eauto].
    destruct (enabled host l) eqn:Een; [|eauto].
    destruct (plugin_create (engine host l) f w) as [[p|] w1] eqn:Ec; [|eauto].
    specialize (IH (log_info host (loaded_message f) w1)).
    destruct (load_spec host rest _) as [created w3].
    simpl in Hin. destruct Hin as [Heq|Hin]; [|eauto].
    inversion Heq; subst. exists l, w. rewrite Ec. auto.
Qed.

Lemma plugins_init_run (s : state W) :
  plugins_init host s =
  match prefs_get_plugins host (world (booted host s)) with
  | Some plugins_load =>
      (load_files host plugins_load ;;
       curr <- get_plugins ;; init_walk host curr) (booted host s)
  | None => Ok tt (booted host s)
  end.
Proof.
  unfold plugins_init, booted, boot_world, enabled, all_langs,
    python_env_init, ruby_env_init, lua_env_init, c_env_init, lang_env_init.
  destruct (PROF_HAVE_PYTHON host), (PROF_HAVE_RUBY host),
    (PROF_HAVE_LUA host), (PROF_HAVE_C host); run;
    rewrite <- ?app_assoc, ?app_nil_r; simpl;
    match goal with
    | |- context [prefs_get_plugins host ?w] =>
        destruct (prefs_get_plugins host w)
    end; reflexivity.
Qed.

Lemma booted_plugins (s : state W) : plugins (booted host s) = [].
Proof. reflexivity. Qed.

(** *** The init walk *)

Lemma init_walk_plugins (curr : list (ProfPlugin W)) :
  forall s, plugins (state_of (init_walk host curr s)) = plugins s.
Proof.
  induction curr as [|p next IH]; intros s; [reflexivity|].
  cbn [init_walk]. unfold call_init. run.
  destruct (init_func p VERSION STATUS (world s)) as [[[] w]|]; simpl;
    [rewrite IH|]; reflexivity.
Qed.

Lemma init_walk_run (curr : list (ProfPlugin W)) :
  forall s,
    (forall p, In p curr -> forall w, init_func p VERSION STATUS w <> None) ->
    exists s',
      init_walk host curr s = Ok tt s' /\
      plugins s' = plugins s /\
      trace s' = trace s ++ map (fun p => InitHook p [VERSION; STATUS]) curr.
Proof.
  induction curr as [|p next IH]; intros s Hret.
  - exists s. simpl. rewrite app_nil_r. auto.
  - cbn [init_walk]. unfold call_init. run.
    destruct (init_func p VERSION STATUS (world s)) as [[[] w]|] eqn:E;
      [|exfalso; exact (Hret p (or_introl eq_refl) _ E)].
    match goal with |- context [init_walk host next ?s1] =>
      destruct (IH s1) as (s' & Hr & Hp & Ht) end.
    { intros q Hq. apply Hret. right. exact Hq. }
    exists s'. simpl in *. rewrite Hr, Hp, Ht, <- app_assoc. auto.
Qed.

(** *** Notification walks *)

Lemma plugins_notify_walk (h : notification) (s : state W) :
  plugins_notify h s = notify_walk h (plugins s) s.
Proof. destruct h; reflexivity. Qed.

(** A notification walk calls the hook on the plugins of the list in
    order, as far as the calls return. *)
Lemma notify_walk_run (h : notification) (curr : list (ProfPlugin W)) :
  forall s,
  exists invoked rest,
    curr = invoked ++ rest /\
    trace (state_of (notify_walk h curr s)) =
      trace s ++ map (NotifyHook h) invoked /\
    plugins (state_of (notify_walk h curr s)) = plugins s /\
    match notify_walk h curr s with
    | Ok _ _ => rest = []
    | Halt s' =>
        exists before p,
          invoked = before ++ [p] /\ notify_func h p (world s') = None
    end.
Proof.
  induction curr as [|p next IH]; intros s.
  - exists [], []. simpl. rewrite app_nil_r. auto.
  - cbn [notify_walk]. unfold call_notify. run.
    destruct (notify_func h p (world s)) as [[[] w]|] eqn:E.
    + match goal with |- context [notify_walk h next ?s1] =>
        destruct (IH s1) as (invoked & rest & Hc & Ht & Hp & Hm) end.
      exists (p :: invoked), rest. simpl in *.
      rewrite Ht, Hp, <- app_assoc. subst next.
      repeat split; try reflexivity.
      destruct (notify_walk h (invoked ++ rest) _); [exact Hm|].
      destruct Hm as (before & q & Hi & Hq).
      exists (p :: before), q. subst invoked. auto.
    + exists [p], next. simpl. repeat split.
      exists [], p. auto.
Qed.

(** *** Message walks *)

Lemma plugins_transform_walk (h : transform) (message : string) (s : state W) :
  plugins_transform h message s = transform_walk h (plugins s) message s.
Proof. destruct h; reflexivity. Qed.

Lemma transform_walk_fold (h : transform) (curr : list (ProfPlugin W)) :
  forall (acc : Run W string) (s : state W),
    (current <- acc ;; transform_walk h curr current) s =
    fold_left (transform_step h) curr acc s.
Proof.
  induction curr as [|p next IH]; intros acc s.
  - simpl. apply bind_ret_r.
  - cbn [fold_left]. rewrite <- IH.
    unfold transform_step. cbn [transform_walk]. unfold bind, ret.
    destruct (acc s) as [current s1|s1]; [|reflexivity].
    destruct (call_transform h p current s1) as [[r|] s2|s2]; reflexivity.
Qed.

Lemma same_effect_refl (h : transform) (p : ProfPlugin W) : same_effect h p p.
Proof. intros m w. reflexivity. Qed.

Lemma echoes_same_effect (h : transform) (p q : ProfPlugin W) :
  echoes_where_silent h p q -> same_effect h p q.
Proof.
  intros H m w. specialize (H m w).
  destruct (transform_func h q m w) as [[[r|] w']|]; rewrite H; reflexivity.
Qed.

Lemma Forall2_same_effect_refl (h : transform) (l : list (ProfPlugin W)) :
  Forall2 (same_effect h) l l.
Proof. induction l; constructor; [apply same_effect_refl | assumption]. Qed.

(** Plugins the dispatcher cannot tell apart give the same walk: the
    same result, the same world, the same messages handed on. *)
Lemma transform_walk_same_effect (h : transform)
    (ps qs : list (ProfPlugin W)) :
  Forall2 (same_effect h) ps qs ->
  forall message s1 s2,
    world s1 = world s2 ->
    map (@event_input W) (trace s1) = map (@event_input W) (trace s2) ->
    value_of (transform_walk h ps message s1) =
      value_of (transform_walk h qs message s2) /\
    world (state_of (transform_walk h ps message s1)) =
      world (state_of (transform_walk h qs message s2)) /\
    map (@event_input W) (trace (state_of (transform_walk h ps message s1))) =
      map (@event_input W) (trace (state_of (transform_walk h qs message s2))).
Proof.
  induction 1 as [|p q ps qs Hpq _ IH]; intros message s1 s2 Hw Ht.
  - simpl. auto.
  - cbn [transform_walk]. unfold call_transform. run.
    specialize (Hpq message (world s1)). rewrite <- Hw.
    destruct (transform_func h p message (world s1)) as [[r1 w1]|];
      destruct (transform_func h q message (world s1)) as [[r2 w2]|];
      simpl in Hpq; try discriminate.
    + inversion Hpq as [[Hr Hw']]. subst w2.
      destruct r1 as [n1|], r2 as [n2|]; simpl in Hr; unfold strdup;
        rewrite ?Hr;
        (apply IH; simpl; [reflexivity | rewrite !map_app, Ht; reflexivity]).
    + simpl. rewrite !map_app, Ht. auto.
Qed.

(** *** Claims on the message hooks *)

(** C1. Every message-transform hook is a left fold over the registry:
    the current value starts as the caller's message; each plugin, in
    registry order, is invoked with the current value; a non-null answer
    replaces the current value and is what the next plugin receives, a
    null answer leaves it as it is; the value after the last plugin is
    returned. In particular, when three plugins answer "A", no value and
    "B", the result is "B", the second and third plugin having both
    received "A". *)
Theorem transform_is_left_fold (h : transform) (message : string)
    (s : state W) :
  plugins_transform h message s = transform_fold h (plugins s) message s /\
  (forall p1 p2 p3 : ProfPlugin W,
     plugins s = [p1; p2; p3] ->
     (forall m w, exists w', transform_func h p1 m w = Some (Some "A"%string, w')) ->
     (forall m w, exists w', transform_func h p2 m w = Some (None, w')) ->
     (forall m w, exists w', transform_func h p3 m w = Some (Some "B"%string, w')) ->
     exists s',
       plugins_transform h message s = Ok "B"%string s' /\
       trace s' = trace s ++ [TransformHook h p1 message;
                              TransformHook h p2 "A"%string;
                              TransformHook h p3 "A"%string]).
Proof.
  split.
  - rewrite plugins_transform_walk. unfold transform_fold.
    rewrite <- transform_walk_fold. reflexivity.
  - intros p1 p2 p3 Hreg H1 H2 H3.
    rewrite plugins_transform_walk, Hreg.
    cbn [transform_walk]. unfold call_transform. run.
    destruct (H1 message (world s)) as [w1 E1]. rewrite E1. run.
    destruct (H2 "A"%string w1) as [w2 E2]. unfold strdup. rewrite E2. run.
    destruct (H3 "A"%string w2) as [w3 E3]. rewrite E3. run.
    eexists. split; [reflexivity|]. simpl. rewrite <- !app_assoc. reflexivity.
Qed.

(** C5. With no plugin in the registry, every message-transform hook
    returns its input message, whatever the message. *)
Theorem transform_identity_on_empty_registry (h : transform)
    (message : string) (s : state W) :
  plugins s = [] ->
  plugins_transform h message s = Ok message s.
Proof.
  intros Hreg. rewrite plugins_transform_walk, Hreg. reflexivity.
Qed.

(** *** Claims on bring-up and load *)

Lemma plugins_init_registry (filenames : list string) (s : state W) :
  prefs_get_plugins host (world (booted host s)) = Some filenames ->
  plugins (state_of (plugins_init host s)) =
  map snd (fst (load_spec host filenames (world (booted host s)))).
Proof.
  intros Hprefs. rewrite plugins_init_run, Hprefs. unfold bind at 1.
  destruct (load_files_run filenames (booted host s))
    as (s1 & tr & Hr & Hp & _). rewrite Hr.
  unfold bind, get_plugins. rewrite init_walk_plugins. exact Hp.
Qed.

(** C2. After the load of [filenames], the registry is, in input order,
    the plugins of exactly those filenames for which the enabled engine
    matching the extension created a plugin; a failed create and an
    unmapped extension are skipped, and the loop goes on to the
    remaining files: it always reaches the end of the list and hands
    every loadable filename to its engine. *)
Theorem load_registry_is_created_subsequence (filenames : list string)
    (s : state W) :
  prefs_get_plugins host (world (booted host s)) = Some filenames ->
  let created := fst (load_spec host filenames (world (booted host s))) in
  plugins (state_of (plugins_init host s)) = map snd created /\
  subseq (map fst created) filenames /\
  (forall filename plugin,
     In (filename, plugin) created ->
     exists l w0,
       extension_language filename = Some l /\ enabled host l = true /\
       fst (plugin_create (engine host l) filename w0) = Some plugin) /\
  (forall s0 : state W,
     exists s1 tr,
       load_files host filenames s0 = Ok tt s1 /\
       plugins s1 =
         plugins s0 ++ map snd (fst (load_spec host filenames (world s0))) /\
       trace s1 = trace s0 ++ tr /\
       created_files tr = filter (loadable host) filenames).
Proof.
  intros Hprefs created. repeat split.
  - apply plugins_init_registry, Hprefs.
  - apply load_spec_subseq.
  - apply load_spec_created.
  - intros s0.
    destruct (load_files_run filenames s0) as (s1 & tr & Hr & Hp & _ & Ht & _ & Hc).
    exists s1, tr. auto.
Qed.

(** C7. Loading ["a.py"; "b.xyz"; "c.lua"] with the Python and Lua
    engines enabled and the Ruby engine disabled, both creates
    succeeding, gives a registry of exactly two plugins, the one of a.py
    then the one of c.lua. A file whose extension maps to a disabled
    engine is skipped without any effect, exactly as a file whose
    extension maps to no language. *)
Theorem load_example_skips_disabled :
  (forall (s : state W) (pa pc : ProfPlugin W),
     PROF_HAVE_PYTHON host = true ->
     PROF_HAVE_RUBY host = false ->
     PROF_HAVE_LUA host = true ->
     prefs_get_plugins host (world (booted host s)) =
       Some ["a.py"; "b.xyz"; "c.lua"]%string ->
     (forall w, fst (plugin_create (engine host LANG_PYTHON) "a.py" w) = Some pa) ->
     (forall w, fst (plugin_create (engine host LANG_LUA) "c.lua" w) = Some pc) ->
     plugins (state_of (plugins_init host s)) = [pa; pc]) /\
  (forall (filename : string) (s : state W),
     extension_language filename = None \/
     (exists l, extension_language filename = Some l /\
                enabled host l = false) ->
     load_file host filename s = Ok tt s).
Proof.
  split.
  - intros s pa pc Hpy Hrb Hlua Hprefs Ha Hc.
    rewrite (plugins_init_registry s Hprefs).
    generalize (world (booted host s)). intros w.
    cbn [load_spec].
    change (extension_language "a.py") with (Some LANG_PYTHON).
    change (extension_language "b.xyz") with (@None lang_t).
    change (extension_language "c.lua") with (Some LANG_LUA).
    unfold enabled. rewrite Hpy, Hlua.
    specialize (Ha w).
    destruct (plugin_create (engine host LANG_PYTHON) "a.py" w) as [ra w1].
    simpl in Ha. subst ra.
    specialize (Hc (log_info host (loaded_message "a.py") w1)).
    destruct (plugin_create (engine host LANG_LUA) "c.lua" _) as [rc w2].
    simpl in Hc. subst rc. reflexivity.
  - intros filename s Hskip. rewrite load_file_run.
    destruct Hskip as [E|(l & E & Hoff)]; rewrite E; [|rewrite Hoff];
      reflexivity.
Qed.

(** C10. When the preferences supply no filename list at all,
    [plugins_init] still brings up every enabled engine, once each, and
    does nothing else: the registry is empty and no plugin hook has been
    invoked. Every notification then does nothing and every message
    transform returns its input. *)
Theorem no_plugin_list_boots_engines_only (s : state W) :
  prefs_get_plugins host (world (booted host s)) = None ->
  exists s',
    plugins_init host s = Ok tt s' /\
    plugins s' = [] /\
    world s' = boot_world host (world s) /\
    trace s' = trace s ++ map EnvInit (filter (enabled host) all_langs) /\
    (forall h, plugins_notify h s' = Ok tt s') /\
    (forall h message, plugins_transform h message s' = Ok message s').
Proof.
  intros Hprefs. exists (booted host s).
  rewrite plugins_init_run, Hprefs. repeat split.
  - intros h. rewrite plugins_notify_walk. reflexivity.
  - intros h message. rewrite plugins_transform_walk. reflexivity.
Qed.

(** C3 (amended). When every init hook returns, [plugins_init] invokes
    the init hook exactly once on every plugin of the registry, with the
    host's version and status strings and nothing else, in registry
    order, and only once the whole batch is loaded: everything the
    bring-up and the load do comes first, every loadable filename has
    been handed to its engine by then, and no load step follows an init
    call. *)
Theorem init_once_after_load (s : state W) :
  (forall p, In p (plugins (state_of (plugins_init host s))) ->
             forall w, init_func p VERSION STATUS w <> None) ->
  exists s' loading,
    plugins_init host s = Ok tt s' /\
    trace s' = trace s ++ loading ++
               map (fun p => InitHook p [VERSION; STATUS]) (plugins s') /\
    forallb (@is_loading W) loading = true /\
    created_files loading =
      match prefs_get_plugins host (world (booted host s)) with
      | Some filenames => filter (loadable host) filenames
      | None => []
      end.
Proof.
  intros Hret. rewrite plugins_init_run in *.
  assert (Hboot : forall l : list lang_t,
             forallb (@is_loading W) (map EnvInit l) = true /\
             created_files (map (@EnvInit W) l) = [])
    by (induction l as [|x l [IH1 IH2]]; simpl; auto).
  destruct (Hboot (filter (enabled host) all_langs)) as [Hb1 Hb2].
  destruct (prefs_get_plugins host (world (booted host s))) as [filenames|].
  - unfold bind at 1 in Hret. unfold bind at 1.
    destruct (load_files_run filenames (booted host s))
      as (s1 & tr & Hr & Hp & _ & Ht & Hl & Hc).
    rewrite Hr in *. unfold bind, get_plugins in *.
    rewrite init_walk_plugins in Hret.
    destruct (init_walk_run (plugins s1) s1 Hret) as (s' & Hr' & Hp' & Ht').
    exists s', (map EnvInit (filter (enabled host) all_langs) ++ tr).
    rewrite Hr', Ht', Ht, Hp'. cbn [booted trace]. rewrite <- !app_assoc.
    repeat split; try reflexivity.
    + rewrite forallb_app, Hb1, Hl. reflexivity.
    + rewrite <- Hc.
      generalize (filter (enabled host) all_langs).
      induction l as [|x l IH]; simpl; auto.
  - exists (booted host s), (map EnvInit (filter (enabled host) all_langs)).
    cbn [booted trace plugins map]. rewrite app_nil_r. auto.
Qed.

(** *** Teardown *)

Lemma destroy_plugin_run (p : ProfPlugin W) (s : state W) :
  enabled host (lang p) = true ->
  destroy_plugin host p s =
  Ok tt (mkState (plugin_destroy (engine host (lang p)) p (world s))
           (plugins s) (trace s ++ [PluginDestroy (lang p) p])).
Proof.
  unfold destroy_plugin, enabled, python_plugin_destroy, ruby_plugin_destroy,
    lua_plugin_destroy, c_plugin_destroy, lang_plugin_destroy.
  destruct (lang p); intros H; rewrite H;
    destruct (PROF_HAVE_PYTHON host), (PROF_HAVE_RUBY host),
      (PROF_HAVE_LUA host), (PROF_HAVE_C host);
    try discriminate; reflexivity.
Qed.

Lemma destroy_walk_run (curr : list (ProfPlugin W)) :
  forall s,
    Forall (fun p => enabled host (lang p) = true) curr ->
    exists s',
      destroy_walk host curr s = Ok tt s' /\
      plugins s' = plugins s /\
      trace s' = trace s ++ map (fun p => PluginDestroy (lang p) p) curr.
Proof.
  induction curr as [|p next IH]; intros s Hall.
  - exists s. simpl. rewrite app_nil_r. auto.
  - inversion Hall as [|? ? Hp Hnext]; subst.
    cbn [destroy_walk]. unfold bind at 1. rewrite destroy_plugin_run by exact Hp.
    match goal with |- context [destroy_walk host next ?s1] =>
      destruct (IH s1 Hnext) as (s' & Hr & Hreg & Ht) end.
    exists s'. simpl in *. rewrite Hr, Hreg, Ht, <- app_assoc. auto.
Qed.

(** The four [shutdown] calls that end [plugins_shutdown]. *)
Lemma engines_shutdown_run (s : state W) :
  exists s',
    (ifdef (PROF_HAVE_PYTHON host) (python_shutdown host) ;;
     ifdef (PROF_HAVE_RUBY host) (ruby_shutdown host) ;;
     ifdef (PROF_HAVE_LUA host) (lua_shutdown host) ;;
     ifdef (PROF_HAVE_C host) (c_shutdown host)) s = Ok tt s' /\
    plugins s' = plugins s /\
    trace s' = trace s ++ map EnvShutdown (filter (enabled host) all_langs).
Proof.
  unfold enabled, all_langs, python_shutdown, ruby_shutdown, lua_shutdown,
    c_shutdown, lang_shutdown.
  destruct (PROF_HAVE_PYTHON host), (PROF_HAVE_RUBY host),
    (PROF_HAVE_LUA host), (PROF_HAVE_C host); run;
    eexists; (split; [reflexivity|]); simpl;
    rewrite <- ?app_assoc, ?app_nil_r; auto.
Qed.

(** The registry [plugins_init] builds holds only plugins of enabled
    engines, as long as each engine tags the plugins it creates. *)
Lemma plugins_init_registry_enabled (s : state W) :
  (forall l filename w p,
     fst (plugin_create (engine host l) filename w) = Some p -> lang p = l) ->
  Forall (fun p => enabled host (lang p) = true)
         (plugins (state_of (plugins_init host s))).
Proof.
  intros Htag.
  destruct (prefs_get_plugins host (world (booted host s))) as [filenames|] eqn:E.
  - rewrite (plugins_init_registry s E). apply Forall_forall.
    intros p Hin. apply in_map_iff in Hin. destruct Hin as ([f p'] & Hp & Hin).
    simpl in Hp. subst p'.
    destruct (load_spec_created _ _ _ _ Hin) as (l & w0 & _ & Hen & Hc).
    rewrite (Htag _ _ _ _ Hc). exact Hen.
  - rewrite plugins_init_run, E. constructor.
Qed.

(** C4. At teardown, destroy is invoked exactly once on every plugin of
    the registry, through the engine of the plugin's language, and the
    process-wide shutdown of every engine in the build is invoked
    exactly once, after all the destroys. *)
Theorem teardown_destroys_then_shuts_down (s : state W) :
  Forall (fun p => enabled host (lang p) = true) (plugins s) ->
  exists s',
    plugins_shutdown host s = Ok tt s' /\
    trace s' = trace s ++
               map (fun p => PluginDestroy (lang p) p) (plugins s) ++
               map EnvShutdown (filter (enabled host) all_langs).
Proof.
  intros Hinv. unfold plugins_shutdown, bind at 1, get_plugins.
  unfold bind at 1.
  destruct (destroy_walk_run s Hinv) as (s1 & Hr & _ & Ht). rewrite Hr.
  destruct (engines_shutdown_run s1) as (s' & Hr' & _ & Ht').
  exists s'. rewrite Hr', Ht', Ht, <- app_assoc. auto.
Qed.

(** *** Notifications *)

(** C6 (amended). For every notification hook and every registry, the
    hook is invoked on the plugins in registry order. The walk has no
    fault isolation: it goes on as long as the invocations return; when
    all of them return, every plugin of the registry has been invoked
    exactly once and the dispatcher returns to the host; an invocation
    that does not return is the last one made, and the dispatcher does
    not return to the host either. *)
Theorem notify_walks_registry_until_failure (h : notification)
    (s : state W) :
  (exists invoked rest,
     plugins s = invoked ++ rest /\
     trace (state_of (plugins_notify h s)) =
       trace s ++ map (NotifyHook h) invoked /\
     match plugins_notify h s with
     | Ok _ _ => rest = []
     | Halt s' =>
         exists before p,
           invoked = before ++ [p] /\ notify_func h p (world s') = None
     end) /\
  ((forall p, In p (plugins s) -> forall w, notify_func h p w <> None) ->
   exists s',
     plugins_notify h s = Ok tt s' /\
     trace s' = trace s ++ map (NotifyHook h) (plugins s)).
Proof.
  rewrite plugins_notify_walk.
  destruct (notify_walk_run h (plugins s) s)
    as (invoked & rest & Hc & Ht & _ & Hm).
  split.
  - exists invoked, rest. auto.
  - intros Hret.
    destruct (notify_walk h (plugins s) s) as [[] s'|s'].
    + exists s'. subst rest. rewrite app_nil_r in Hc. rewrite Hc.
      split; [reflexivity | exact Ht].
    + destruct Hm as (before & p & Hi & Hnone). exfalso.
      apply (Hret p) with (w := world s'); [|exact Hnone].
      rewrite Hc, Hi. apply in_or_app. left. apply in_or_app. right.
      left. reflexivity.
Qed.

(** *** The plugins directory *)

(** C9. [plugins_get_dir] returns the data-home path followed by
    "/profanity/plugins"; it changes nothing, and its answer depends on
    the outside world only, not on the registry or the trace. *)
Theorem plugins_dir_is_data_home_profanity_plugins (s : state W) :
  plugins_get_dir host s =
    Ok (xdg_get_data_home host (world s)
        ++ "/" ++ "profanity" ++ "/" ++ "plugins")%string s /\
  (forall s2 : state W,
     world s2 = world s ->
     value_of (plugins_get_dir host s2) = value_of (plugins_get_dir host s)).
Proof.
  split.
  - reflexivity.
  - intros s2 Hw. unfold plugins_get_dir, bind, query, ret. simpl.
    rewrite Hw. reflexivity.
Qed.

(* ----------------------------------------------------------------- *)
(** *** Further properties of the dispatcher *)

Lemma transform_walk_plugins (h : transform) (curr : list (ProfPlugin W)) :
  forall message s,
    plugins (state_of (transform_walk h curr message s)) = plugins s.
Proof.
  induction curr as [|p next IH]; intros message s; [reflexivity|].
  cbn [transform_walk]. unfold call_transform. run.
  destruct (transform_func h p message (world s)) as [[[r|] w]|]; simpl;
    rewrite ?IH; reflexivity.
Qed.

(** A notification walk over plugins whose hooks return. *)
Lemma notify_walk_returns (h : notification) (curr : list (ProfPlugin W)) :
  forall s,
    (forall p, In p curr -> forall w, notify_func h p w <> None) ->
    exists s',
      notify_walk h curr s = Ok tt s' /\
      plugins s' = plugins s /\
      trace s' = trace s ++ map (NotifyHook h) curr.
Proof.
  induction curr as [|p next IH]; intros s Hret.
  - exists s. simpl. rewrite app_nil_r. auto.
  - cbn [notify_walk]. unfold call_notify. run.
    destruct (notify_func h p (world s)) as [[[] w]|] eqn:E;
      [|exfalso; exact (Hret p (or_introl eq_refl) _ E)].
    match goal with |- context [notify_walk h next ?s1] =>
      destruct (IH s1) as (s' & Hr & Hp & Ht) end.
    { intros q Hq. apply Hret. right. exact Hq. }
    exists s'. simpl in *. rewrite Hr, Hp, Ht, <- app_assoc. auto.
Qed.

(** X1. No hook dispatch changes the registry: after any notification
    and after any message transform, completed or not,
    [plugins_get_list] answers the list it answered before. *)
Theorem dispatch_keeps_registry (s : state W) :
  (forall h,
     value_of (plugins_get_list (state_of (plugins_notify h s))) =
     value_of (plugins_get_list s)) /\
  (forall h message,
     value_of (plugins_get_list (state_of (plugins_transform h message s))) =
     value_of (plugins_get_list s)).
Proof.
  split.
  - intros h. rewrite plugins_notify_walk.
    destruct (notify_walk_run h (plugins s) s) as (_ & _ & _ & _ & Hp & _).
    unfold plugins_get_list, get_plugins. simpl. rewrite Hp. reflexivity.
  - intros h message. rewrite plugins_transform_walk.
    unfold plugins_get_list, get_plugins. simpl.
    rewrite transform_walk_plugins. reflexivity.
Qed.

(** X2. Two notifications in a row go to the same plugins in the same
    order, the registry order, when the hooks return. *)
Theorem repeated_notifications_same_order (h1 h2 : notification)
    (s : state W) :
  (forall p, In p (plugins s) -> forall w, notify_func h1 p w <> None) ->
  (forall p, In p (plugins s) -> forall w, notify_func h2 p w <> None) ->
  exists s',
    (plugins_notify h1 ;; plugins_notify h2) s = Ok tt s' /\
    trace s' = trace s ++ map (NotifyHook h1) (plugins s)
                       ++ map (NotifyHook h2) (plugins s).
Proof.
  intros H1 H2. unfold bind. rewrite plugins_notify_walk.
  destruct (notify_walk_returns h1 (plugins s) s H1) as (s1 & Hr1 & Hp1 & Ht1).
  rewrite Hr1, plugins_notify_walk, Hp1.
  destruct (notify_walk_returns h2 (plugins s) s1 H2) as (s2 & Hr2 & _ & Ht2).
  exists s2. rewrite Hr2, Ht2, Ht1, <- app_assoc. auto.
Qed.

(** The calls a message walk makes, as far as they return. *)
Lemma transform_walk_calls (h : transform) (curr : list (ProfPlugin W)) :
  forall message s,
  exists calls rest,
    curr = map fst calls ++ rest /\
    trace (state_of (transform_walk h curr message s)) =
      trace s ++ map (transform_call h) calls /\
    match calls with
    | [] => True
    | c :: _ => snd c = message
    end /\
    match transform_walk h curr message s with
    | Ok _ _ => rest = []
    | Halt s' =>
        exists before p input,
          calls = before ++ [(p, input)] /\
          transform_func h p input (world s') = None
    end.
Proof.
  induction curr as [|p next IH]; intros message s.
  - exists [], []. simpl. rewrite app_nil_r. auto.
  - cbn [transform_walk]. unfold call_transform. run.
    destruct (transform_func h p message (world s)) as [[r w]|] eqn:E.
    + destruct r as [n|];
        match goal with |- context [transform_walk h next ?m ?s1] =>
          destruct (IH m s1) as (calls & rest & Hc & Ht & _ & Hm) end;
        exists ((p, message) :: calls), rest; subst next;
        (rewrite Ht; simpl; rewrite <- app_assoc;
         repeat split; try reflexivity;
         destruct (transform_walk h (map fst calls ++ rest) _ _);
         [exact Hm|];
         destruct Hm as (before & q & input & Hi & Hq);
         exists ((p, message) :: before), q, input; subst calls; auto).
    + exists [(p, message)], next. simpl. repeat split.
      exists [], p, message. auto.
Qed.

(** X3. A message transform calls the hook on the plugins in registry
    order, the first one with the caller's message. A call that does
    not return is the last one made, and the transform does not return
    to the host either; otherwise every plugin has been called. *)
Theorem transform_walks_registry_until_failure (h : transform)
    (message : string) (s : state W) :
  exists calls rest,
    plugins s = map fst calls ++ rest /\
    trace (state_of (plugins_transform h message s)) =
      trace s ++ map (transform_call h) calls /\
    match calls with
    | [] => True
    | c :: _ => snd c = message
    end /\
    match plugins_transform h message s with
    | Ok _ _ => rest = []
    | Halt s' =>
        exists before p input,
          calls = before ++ [(p, input)] /\
          transform_func h p input (world s') = None
    end.
Proof.
  rewrite plugins_transform_walk.
  destruct (transform_walk_calls h (plugins s) message s)
    as (calls & rest & H).
  exists calls, rest. exact H.
Qed.

(** A walk over plugins that all answer no value. *)
Lemma transform_walk_silent (h : transform) (curr : list (ProfPlugin W)) :
  forall message s,
    (forall p, In p curr ->
       forall m w, exists w', transform_func h p m w = Some (None, w')) ->
    exists s', transform_walk h curr message s = Ok message s'.
Proof.
  induction curr as [|p next IH]; intros message s Hsilent.
  - exists s. reflexivity.
  - cbn [transform_walk]. unfold call_transform. run.
    destruct (Hsilent p (or_introl eq_refl) message (world s)) as [w' E].
    rewrite E. apply IH. intros q Hq. apply Hsilent. right. exact Hq.
Qed.

(** A walk over plugins whose hooks return comes back with a value. *)
Lemma transform_walk_returns (h : transform) (curr : list (ProfPlugin W)) :
  forall message s,
    (forall p, In p curr -> forall m w, transform_func h p m w <> None) ->
    exists result s', transform_walk h curr message s = Ok result s'.
Proof.
  induction curr as [|p next IH]; intros message s Hret.
  - exists message, s. reflexivity.
  - cbn [transform_walk]. unfold call_transform. run.
    destruct (transform_func h p message (world s)) as [[r w]|] eqn:E;
      [|exfalso; exact (Hret p (or_introl eq_refl) _ _ E)].
    destruct r; apply IH; intros q Hq; apply Hret; right; exact Hq.
Qed.

(** Walking a list in two parts. *)
Lemma transform_walk_app (h : transform) (l1 l2 : list (ProfPlugin W)) :
  forall message s,
    transform_walk h (l1 ++ l2) message s =
    (current <- transform_walk h l1 message ;; transform_walk h l2 current) s.
Proof.
  induction l1 as [|p l1 IH]; intros message s; [reflexivity|].
  cbn [app transform_walk]. unfold bind.
  destruct (call_transform h p message s) as [[r|] s1|s1];
    try reflexivity; rewrite IH; unfold bind; reflexivity.
Qed.

(** X4. When every plugin of the registry answers no value, a message
    transform returns the caller's message, whatever the number of
    plugins. *)
Theorem silent_registry_returns_message (h : transform) (message : string)
    (s : state W) :
  (forall p, In p (plugins s) ->
     forall m w, exists w', transform_func h p m w = Some (None, w')) ->
  value_of (plugins_transform h message s) = Some message.
Proof.
  intros Hsilent. rewrite plugins_transform_walk.
  destruct (transform_walk_silent h (plugins s) message s Hsilent) as [s' E].
  rewrite E. reflexivity.
Qed.

(** X5. The last answer wins: when a plugin answers [r] and every
    plugin after it in the registry answers no value, a message
    transform returns [r], whatever the plugins before it answered. *)
Theorem last_answer_wins (h : transform) (p : ProfPlugin W)
    (before after : list (ProfPlugin W)) (r message : string)
    (s : state W) :
  plugins s = before ++ p :: after ->
  (forall q, In q before -> forall m w, transform_func h q m w <> None) ->
  (forall m w, exists w', transform_func h p m w = Some (Some r, w')) ->
  (forall q, In q after ->
     forall m w, exists w', transform_func h q m w = Some (None, w')) ->
  value_of (plugins_transform h message s) = Some r.
Proof.
  intros Hreg Hbefore Hp Hafter.
  rewrite plugins_transform_walk, Hreg, transform_walk_app. unfold bind.
  destruct (transform_walk_returns h before message s Hbefore)
    as (current & s1 & E1).
  rewrite E1. cbn [transform_walk]. unfold call_transform. run.
  destruct (Hp current (world s1)) as [w' Ep]. rewrite Ep. unfold strdup.
  match goal with |- context [transform_walk h after r ?s2] =>
    destruct (transform_walk_silent h after r s2 Hafter) as [s3 E3] end.
  rewrite E3. reflexivity.
Qed.

(* ----------------------------------------------------------------- *)
(** *** Further properties of teardown *)

Lemma destroy_plugin_skip (p : ProfPlugin W) (s : state W) :
  enabled host (lang p) = false ->
  destroy_plugin host p s = Ok tt s.
Proof.
  unfold destroy_plugin, enabled.
  destruct (lang p); intros H; rewrite H;
    destruct (PROF_HAVE_PYTHON host), (PROF_HAVE_RUBY host),
      (PROF_HAVE_LUA host), (PROF_HAVE_C host);
    try discriminate; reflexivity.
Qed.

Lemma destroy_walk_any (curr : list (ProfPlugin W)) :
  forall s,
  exists s',
    destroy_walk host curr s = Ok tt s' /\
    plugins s' = plugins s /\
    trace s' = trace s ++
               map (fun p => PluginDestroy (lang p) p)
                   (filter (fun p => enabled host (lang p)) curr).
Proof.
  induction curr as [|p next IH]; intros s.
  - exists s. simpl. rewrite app_nil_r. auto.
  - cbn [destroy_walk filter]. unfold bind at 1.
    destruct (enabled host (lang p)) eqn:E.
    + rewrite destroy_plugin_run by exact E.
      match goal with |- context [destroy_walk host next ?s1] =>
        destruct (IH s1) as (s' & Hr & Hreg & Ht) end.
      exists s'. simpl in *. rewrite Hr, Hreg, Ht, <- app_assoc. auto.
    + rewrite destroy_plugin_skip by exact E. apply IH.
Qed.

(** X6. [plugins_shutdown] always comes back. It destroys, in registry
    order, the plugins whose language is compiled in and no other, then
    shuts down each compiled-in engine; it leaves the registry as it
    found it, still listing the destroyed plugins. *)
Theorem teardown_destroys_compiled_in_only (s : state W) :
  exists s',
    plugins_shutdown host s = Ok tt s' /\
    plugins s' = plugins s /\
    trace s' = trace s ++
               map (fun p => PluginDestroy (lang p) p)
                   (filter (fun p => enabled host (lang p)) (plugins s)) ++
               map EnvShutdown (filter (enabled host) all_langs).
Proof.
  unfold plugins_shutdown, bind at 1, get_plugins. unfold bind at 1.
  destruct (destroy_walk_any (plugins s) s) as (s1 & Hr & Hp & Ht).
  rewrite Hr.
  destruct (engines_shutdown_run s1) as (s' & Hr' & Hp' & Ht').
  exists s'. rewrite Hr', Hp', Hp, Ht', Ht, <- app_assoc. auto.
Qed.

(** X7. [plugins_shutdown] does not empty the registry, so a
    notification sent after it still walks the destroyed plugins: after
    the destroys and the engines' shutdown, the hook of the first
    plugin of the registry is called, and the walk goes on in registry
    order as long as the hooks return; a hook that does not return is
    the last one called. *)
Theorem notification_after_teardown_reaches_destroyed (h : notification)
    (s : state W) :
  exists invoked rest,
    plugins s = invoked ++ rest /\
    trace (state_of ((plugins_shutdown host ;; plugins_notify h) s)) =
      trace s ++
      map (fun p => PluginDestroy (lang p) p)
          (filter (fun p => enabled host (lang p)) (plugins s)) ++
      map EnvShutdown (filter (enabled host) all_langs) ++
      map (NotifyHook h) invoked /\
    (plugins s <> [] -> invoked <> []) /\
    match (plugins_shutdown host ;; plugins_notify h) s with
    | Ok _ _ => rest = []
    | Halt s' =>
        exists before p,
          invoked = before ++ [p] /\ notify_func h p (world s') = None
    end.
Proof.
  destruct (destroy_walk_any (plugins s) s) as (s1 & Hr & Hp & Ht).
  destruct (engines_shutdown_run s1) as (s2 & Hr2 & Hp2 & Ht2).
  assert (E : (plugins_shutdown host ;; plugins_notify h) s =
              notify_walk h (plugins s) s2).
  { unfold bind at 1. unfold plugins_shutdown, bind at 1, get_plugins.
    unfold bind at 1. rewrite Hr, Hr2, plugins_notify_walk, Hp2, Hp.
    reflexivity. }
  rewrite E.
  destruct (notify_walk_run h (plugins s) s2)
    as (invoked & rest & Hc & Htr & _ & Hm).
  exists invoked, rest. rewrite Htr, Ht2, Ht, <- !app_assoc.
  split; [exact Hc|]. split; [reflexivity|]. split; [|exact Hm].
  intros Hne ->. destruct (notify_walk h (plugins s) s2).
  - subst rest. apply Hne. exact Hc.
  - destruct Hm as (before & p & Hi & _). destruct before; discriminate Hi.
Qed.

(* ----------------------------------------------------------------- *)
(** *** Further properties of bring-up and load *)

Lemma forallb_impl {A} (f g : A -> bool) (l : list A) :
  (forall x, f x = true -> g x = true) ->
  forallb f l = true -> forallb g l = true.
Proof.
  intros Hfg. induction l as [|x l IH]; simpl; [reflexivity|].
  intros H. apply andb_true_iff in H. destruct H as [Hx Hl].
  rewrite (Hfg x Hx), (IH Hl). reflexivity.
Qed.

Lemma forallb_map_all {A B} (g : B -> bool) (f : A -> B) (l : list A) :
  (forall x, g (f x) = true) -> forallb g (map f l) = true.
Proof.
  intros H. induction l as [|x l IH]; simpl; [reflexivity|].
  rewrite H, IH. reflexivity.
Qed.

Lemma logged_app (tr1 tr2 : list (event W)) :
  logged (tr1 ++ tr2) = logged tr1 ++ logged tr2.
Proof.
  induction tr1 as [|e tr1 IH]; simpl; [reflexivity|].
  destruct e; simpl; rewrite IH; reflexivity.
Qed.

Lemma logged_none (tr : list (event W)) :
  forallb (fun e => negb (is_load_step e)) tr = true -> logged tr = [].
Proof.
  induction tr as [|e tr IH]; simpl; [reflexivity|].
  intros H. apply andb_true_iff in H. destruct H as [He Ht].
  destruct e; simpl in *; try discriminate; apply IH, Ht.
Qed.

(** The trace of the load loop: create and log steps only, one log
    line per plugin kept. *)
Lemma load_files_steps (filenames : list string) :
  forall s : state W,
  exists s' tr,
    load_files host filenames s = Ok tt s' /\
    trace s' = trace s ++ tr /\
    forallb (@is_load_step W) tr = true /\
    logged tr =
      map loaded_message (map fst (fst (load_spec host filenames (world s)))).
Proof.
  induction filenames as [|filename rest IH]; intros s.
  - exists s, []. simpl. rewrite app_nil_r. auto.
  - cbn [load_files]. unfold bind at 1. rewrite load_file_run.
    cbn [load_spec].
    destruct (extension_language filename) as [l|]; [|apply IH].
    destruct (enabled host l); [|apply IH].
    destruct (plugin_create (engine host l) filename (world s))
      as [[plugin|] w1];
      match goal with |- context [load_files host rest ?s1] =>
        destruct (IH s1) as (s' & tr & Hr & Ht & Hl & Hg) end;
      simpl in Ht, Hg.
    + destruct (load_spec host rest (log_info host (loaded_message filename) w1))
        as [created w3].
      exists s', (PluginCreate l filename
                  :: LogInfo (loaded_message filename) :: tr).
      simpl in *. rewrite Hr, Ht, Hl, Hg, <- !app_assoc. auto.
    + exists s', (PluginCreate l filename :: tr).
      simpl in *. rewrite Hr, Ht, Hl, Hg, <- !app_assoc. auto.
Qed.

(** The init walk, as far as the init hooks return. *)
Lemma init_walk_calls (curr : list (ProfPlugin W)) :
  forall s,
  exists inited rest,
    curr = inited ++ rest /\
    trace (state_of (init_walk host curr s)) =
      trace s ++ map (fun p => InitHook p [VERSION; STATUS]) inited /\
    match init_walk host curr s with
    | Ok _ _ => rest = []
    | Halt s' =>
        exists before p,
          inited = before ++ [p] /\ init_func p VERSION STATUS (world s') = None
    end.
Proof.
  induction curr as [|p next IH]; intros s.
  - exists [], []. simpl. rewrite app_nil_r. auto.
  - cbn [init_walk]. unfold call_init. run.
    destruct (init_func p VERSION STATUS (world s)) as [[[] w]|] eqn:E.
    + match goal with |- context [init_walk host next ?s1] =>
        destruct (IH s1) as (inited & rest & Hc & Ht & Hm) end.
      exists (p :: inited), rest. simpl in *.
      rewrite Ht, <- app_assoc. subst next.
      repeat split; try reflexivity.
      destruct (init_walk host (inited ++ rest) _); [exact Hm|].
      destruct Hm as (before & q & Hi & Hq).
      exists (p :: before), q. subst inited. auto.
    + exists [p], next. simpl. repeat split.
      exists [], p. auto.
Qed.

(** [plugins_init] with a filename list: bring-up, load, then the init
    walk over what was loaded. *)
Lemma plugins_init_loaded (filenames : list string) (s : state W) :
  prefs_get_plugins host (world (booted host s)) = Some filenames ->
  exists s1 tr,
    plugins_init host s = init_walk host (plugins s1) s1 /\
    plugins s1 =
      map snd (fst (load_spec host filenames (world (booted host s)))) /\
    trace s1 = trace s ++ map EnvInit (filter (enabled host) all_langs) ++ tr /\
    forallb (@is_load_step W) tr = true /\
    logged tr =
      map loaded_message
          (map fst (fst (load_spec host filenames (world (booted host s))))).
Proof.
  intros Hprefs. rewrite plugins_init_run, Hprefs. unfold bind at 1.
  destruct (load_files_run filenames (booted host s))
    as (s1 & tr0 & Hr & Hp & _).
  destruct (load_files_steps filenames (booted host s))
    as (s1' & tr & Hr' & Ht & Hl & Hg).
  rewrite Hr in Hr'. injection Hr' as <-.
  exists s1, tr. rewrite Hr. unfold bind, get_plugins.
  cbn [booted trace] in Ht. rewrite <- app_assoc in Ht. auto.
Qed.

(** X8. When the preferences supply a filename list, [plugins_init]
    loads every file before any init call, then calls the init hooks in
    registry order. An init hook that does not return is the last call
    made: [plugins_init] does not return to the host, and the plugins
    after it stay in the registry without having been initialised. *)
Theorem init_stops_at_failing_hook (filenames : list string) (s : state W) :
  prefs_get_plugins host (world (booted host s)) = Some filenames ->
  exists loading inited rest,
    plugins (state_of (plugins_init host s)) = inited ++ rest /\
    trace (state_of (plugins_init host s)) =
      trace s ++ loading ++
      map (fun p => InitHook p [VERSION; STATUS]) inited /\
    forallb (@is_loading W) loading = true /\
    match plugins_init host s with
    | Ok _ _ => rest = []
    | Halt s' =>
        exists before p,
          inited = before ++ [p] /\ init_func p VERSION STATUS (world s') = None
    end.
Proof.
  intros Hprefs.
  destruct (plugins_init_loaded s Hprefs) as (s1 & tr & Hr & _ & Ht & Hl & _).
  rewrite Hr.
  destruct (init_walk_calls (plugins s1) s1) as (inited & rest & Hc & Ht' & Hm).
  exists (map EnvInit (filter (enabled host) all_langs) ++ tr), inited, rest.
  rewrite init_walk_plugins, Ht', Ht, <- !app_assoc.
  repeat split; try assumption.
  rewrite forallb_app. apply andb_true_iff. split.
  - apply forallb_map_all. reflexivity.
  - apply forallb_impl with (f := @is_load_step W); [|exact Hl].
    intros [] H; simpl in *; congruence.
Qed.

(** X9. [plugins_init] brings up every compiled-in engine exactly once
    and before anything else, whether or not a filename list is
    supplied and whether or not the init hooks return. *)
Theorem engines_brought_up_first (s : state W) :
  exists rest,
    trace (state_of (plugins_init host s)) =
      trace s ++ map EnvInit (filter (enabled host) all_langs) ++ rest /\
    forallb (fun e => negb (is_env_init e)) rest = true.
Proof.
  destruct (prefs_get_plugins host (world (booted host s)))
    as [filenames|] eqn:Hprefs.
  - destruct (plugins_init_loaded s Hprefs) as (s1 & tr & Hr & _ & Ht & Hl & _).
    rewrite Hr.
    destruct (init_walk_calls (plugins s1) s1) as (inited & _ & _ & Ht' & _).
    exists (tr ++ map (fun p => InitHook p [VERSION; STATUS]) inited).
    rewrite Ht', Ht, <- !app_assoc. split; [reflexivity|].
    rewrite forallb_app. apply andb_true_iff. split.
    + apply forallb_impl with (f := @is_load_step W); [|exact Hl].
      intros [] H; simpl in *; congruence.
    + apply forallb_map_all. reflexivity.
  - rewrite plugins_init_run, Hprefs. exists [].
    cbn [state_of booted trace]. rewrite app_nil_r. auto.
Qed.

(** X10. [plugins_init] forgets the registry it finds: the registry it
    leaves depends on the outside world only, not on the plugins listed
    before, and these are not destroyed: it makes bring-up, create, log
    and init calls and no other. *)
Theorem plugins_init_forgets_registry (s1 s2 : state W) :
  world s1 = world s2 ->
  plugins (state_of (plugins_init host s1)) =
    plugins (state_of (plugins_init host s2)) /\
  exists added,
    trace (state_of (plugins_init host s1)) = trace s1 ++ added /\
    forallb (@is_init_phase W) added = true.
Proof.
  intros Hw.
  assert (Hb : world (booted host s1) = world (booted host s2))
    by (cbn [booted world]; rewrite Hw; reflexivity).
  split.
  - destruct (prefs_get_plugins host (world (booted host s1)))
      as [filenames|] eqn:Hprefs.
    + rewrite (plugins_init_registry s1 Hprefs).
      rewrite Hb in Hprefs. rewrite (plugins_init_registry s2 Hprefs).
      rewrite Hb. reflexivity.
    + rewrite (plugins_init_run s1), Hprefs.
      rewrite Hb in Hprefs. rewrite (plugins_init_run s2), Hprefs.
      reflexivity.
  - destruct (prefs_get_plugins host (world (booted host s1)))
      as [filenames|] eqn:Hprefs.
    + destruct (plugins_init_loaded s1 Hprefs)
        as (s & tr & Hr & _ & Ht & Hl & _).
      rewrite Hr.
      destruct (init_walk_calls (plugins s) s) as (inited & _ & _ & Ht' & _).
      exists (map EnvInit (filter (enabled host) all_langs) ++ tr ++
              map (fun p => InitHook p [VERSION; STATUS]) inited).
      rewrite Ht', Ht, <- !app_assoc. split; [reflexivity|].
      rewrite !forallb_app. repeat (apply andb_true_iff; split).
      * apply forallb_map_all. reflexivity.
      * apply forallb_impl with (f := @is_load_step W); [|exact Hl].
        intros [] H; simpl in *; congruence.
      * apply forallb_map_all. reflexivity.
    + rewrite plugins_init_run, Hprefs.
      exists (map EnvInit (filter (enabled host) all_langs)).
      split; [reflexivity|]. apply forallb_map_all. reflexivity.
Qed.

(** X11. [plugins_init] writes one "Loaded plugin" log line per plugin
    it keeps, with the plugin's filename, in load order, and no line for
    a file it skips or whose create fails. *)
Theorem one_log_line_per_loaded_plugin (filenames : list string)
    (s : state W) :
  prefs_get_plugins host (world (booted host s)) = Some filenames ->
  logged (trace (state_of (plugins_init host s))) =
    logged (trace s) ++
    map loaded_message
        (map fst (fst (load_spec host filenames (world (booted host s))))).
Proof.
  intros Hprefs.
  destruct (plugins_init_loaded s Hprefs) as (s1 & tr & Hr & _ & Ht & _ & Hg).
  rewrite Hr.
  destruct (init_walk_calls (plugins s1) s1) as (inited & _ & _ & Ht' & _).
  rewrite Ht', Ht, !logged_app, Hg.
  rewrite (logged_none (map EnvInit _)), (logged_none (map _ inited)),
    app_nil_r; [reflexivity | apply forallb_map_all; reflexivity ..].
Qed.

Lemma load_spec_length (filenames : list string) :
  forall w,
    List.length (fst (load_spec host filenames w)) <=
    List.length (filter (loadable host) filenames).
Proof.
  induction filenames as [|filename rest IH]; intros w; [simpl; lia|].
  cbn [load_spec filter]. unfold loadable at 1.
  destruct (extension_language filename) as [l|]; [|apply IH].
  destruct (enabled host l); [|apply IH].
  destruct (plugin_create (engine host l) filename w) as [[plugin|] w1].
  - specialize (IH (log_info host (loaded_message filename) w1)).
    destruct (load_spec host rest _) as [created w3]. simpl in *. lia.
  - specialize (IH w1). simpl. lia.
Qed.

Lemma filter_length_bound {A} (f : A -> bool) (l : list A) :
  List.length (filter f l) <= List.length l.
Proof.
  induction l as [|x l IH]; simpl; [lia|].
  destruct (f x); simpl; lia.
Qed.

(** X12. The registry never holds more plugins than there are loadable
    filenames in the list, hence never more than there are filenames:
    no file gives rise to two plugins. *)
Theorem registry_at_most_one_plugin_per_file (filenames : list string)
    (s : state W) :
  prefs_get_plugins host (world (booted host s)) = Some filenames ->
  List.length (plugins (state_of (plugins_init host s))) <=
    List.length (filter (loadable host) filenames) /\
  List.length (plugins (state_of (plugins_init host s))) <=
    List.length filenames.
Proof.
  intros Hprefs. rewrite (plugins_init_registry s Hprefs), length_map.
  pose proof (load_spec_length filenames (world (booted host s))).
  pose proof (filter_length_bound (loadable host) filenames).
  lia.
Qed.

Lemma load_spec_all_created (filenames : list string) :
  (forall l filename w,
     fst (plugin_create (engine host l) filename w) <> None) ->
  forall w,
    map fst (fst (load_spec host filenames w)) =
    filter (loadable host) filenames.
Proof.
  intros Hok.
  induction filenames as [|filename rest IH]; intros w; [reflexivity|].
  cbn [load_spec filter]. unfold loadable at 1.
  destruct (extension_language filename) as [l|]; [|apply IH].
  destruct (enabled host l); [|apply IH].
  specialize (Hok l filename w).
  destruct (plugin_create (engine host l) filename w) as [[plugin|] w1];
    [|exfalso; apply Hok; reflexivity].
  specialize (IH (log_info host (loaded_message filename) w1)).
  destruct (load_spec host rest _) as [created w3].
  simpl in *. rewrite IH. reflexivity.
Qed.

(** X13. When no create fails, the registry holds one plugin for each
    loadable filename of the list, in list order; a filename listed
    twice is loaded twice. *)
Theorem every_loadable_file_loaded (filenames : list string) (s : state W) :
  prefs_get_plugins host (world (booted host s)) = Some filenames ->
  (forall l filename w,
     fst (plugin_create (engine host l) filename w) <> None) ->
  map fst (fst (load_spec host filenames (world (booted host s)))) =
    filter (loadable host) filenames /\
  List.length (plugins (state_of (plugins_init host s))) =
    List.length (filter (loadable host) filenames).
Proof.
  intros Hprefs Hok.
  pose proof (load_spec_all_created filenames Hok (world (booted host s))) as E.
  split; [exact E|].
  rewrite (plugins_init_registry s Hprefs), length_map, <- E, length_map.
  reflexivity.
Qed.

(** The extension table maps a filename to a language exactly when the
    filename ends in that language's extension. *)
Lemma extension_language_spec (filename : string) (l : lang_t) :
  extension_language filename = Some l <->
  exists stem, filename = (stem ++ extension_of l)%string.
Proof.
  split.
  - destruct (extension_language_case filename) as [E1 E2 E3 E4|E1 E2 E3 E4
      |E1 E2 E3 E4|E1 E2 E3 E4|E1 E2 E3 E4];
      intros H; try discriminate H; injection H as <-;
      apply g_str_has_suffix_spec; assumption.
  - intros [stem ->].
    assert (Hs : g_str_has_suffix (stem ++ extension_of l) (extension_of l)
                 = true)
      by (apply g_str_has_suffix_spec; exists stem; reflexivity).
    destruct l; cbn [extension_of] in *;
      match goal with |- extension_language ?f = _ =>
        destruct (extension_language_case f)
          as [E1 E2 E3 E4|E1 E2 E3 E4|E1 E2 E3 E4|E1 E2 E3 E4|E1 E2 E3 E4]
      end; try reflexivity; congruence.
Qed.

Lemma no_proper_extension {A} (l tail : list A) (x : A) :
  l <> l ++ x :: tail.
Proof.
  intros H. rewrite <- (app_nil_r l) in H at 1.
  apply app_inv_head in H. discriminate H.
Qed.

(** X14. The load loop hands a file to the engine of language [l]
    exactly when that engine is compiled in and the filename ends in
    the extension of [l]; the comparison is on the end of the name
    only, so a name that is nothing but the extension qualifies. *)
Theorem file_goes_to_engine_of_its_extension (l : lang_t)
    (filename : string) (s : state W) :
  (exists tail,
     trace (state_of (load_file host filename s)) =
     trace s ++ PluginCreate l filename :: tail) <->
  (enabled host l = true /\
   exists stem, filename = (stem ++ extension_of l)%string).
Proof.
  rewrite <- extension_language_spec, load_file_run. split.
  - destruct (extension_language filename) as [l'|];
      [destruct (enabled host l') eqn:En;
       [destruct (plugin_create (engine host l') filename (world s))
          as [[plugin|] w1]|]|];
      simpl; intros [tail H];
      try (exfalso; eapply no_proper_extension; exact H);
      apply app_inv_head in H; injection H as <-; auto.
  - intros [En E]. rewrite E, En.
    destruct (plugin_create (engine host l) filename (world s))
      as [[plugin|] w1]; simpl; eexists; reflexivity.
Qed.

(** X15. A filename of fewer than three characters, the empty one
    included, is skipped: no engine is called and nothing changes. *)
Theorem short_filename_is_skipped (filename : string) (s : state W) :
  String.length filename < 3 ->
  load_file host filename s = Ok tt s.
Proof.
  intros Hshort.
  assert (Hno : forall suffix,
             3 <= String.length suffix ->
             g_str_has_suffix filename suffix = false).
  { intros suffix Hlen. unfold g_str_has_suffix.
    destruct (Nat.ltb_spec (String.length filename) (String.length suffix));
      [reflexivity | lia]. }
  rewrite load_file_run. unfold extension_language.
  rewrite !Hno by (simpl; lia). reflexivity.
Qed.

End Properties.

(* ================================================================= *)
(** ** Message buffers: properties *)

Lemma buffer_text_below (n p : nat) (l : list (nat * string)) (text : string) :
  Forall (fun a => fst a < n) l ->
  buffer_text p l = Some text -> p < n.
Proof.
  induction 1 as [|[a t] l Ha _ IH]; simpl; [discriminate|].
  destruct (Nat.eqb_spec a p) as [<-|_]; [intros _; exact Ha | exact IH].
Qed.

Lemma release_below (n p : nat) (l : list (nat * string)) :
  Forall (fun a => fst a < n) l ->
  Forall (fun a => fst a < n) (release p l).
Proof.
  intros H. apply Forall_forall. intros a Ha.
  apply filter_In in Ha. destruct Ha as [Ha _].
  revert a Ha. apply Forall_forall. exact H.
Qed.

Lemma below_next (n : nat) (l : list (nat * string)) :
  Forall (fun a => fst a < n) l -> Forall (fun a => fst a < S n) l.
Proof.
  apply Forall_impl. intros a Ha. lia.
Qed.

Lemma buffer_text_head (p : nat) (text : string) (l : list (nat * string)) :
  buffer_text p ((p, text) :: l) = Some text.
Proof. simpl. rewrite Nat.eqb_refl. reflexivity. Qed.

Lemma buffer_text_skip (a p : nat) (text : string) (l : list (nat * string)) :
  a <> p -> buffer_text p ((a, text) :: l) = buffer_text p l.
Proof.
  intros H. simpl. destruct (Nat.eqb_spec a p); [contradiction | reflexivity].
Qed.

Lemma release_skip (a p : nat) (text : string) (l : list (nat * string)) :
  a <> p -> release p ((a, text) :: l) = (a, text) :: release p l.
Proof.
  intros H. unfold release. simpl.
  destruct (Nat.eqb_spec a p); [contradiction | reflexivity].
Qed.

Lemma release_same (p : nat) (text : string) (l : list (nat * string)) :
  release p ((p, text) :: l) = release p l.
Proof. unfold release. simpl. rewrite Nat.eqb_refl. reflexivity. Qed.

Lemma buffer_text_released (p : nat) (l : list (nat * string)) :
  buffer_text p (release p l) = None.
Proof.
  induction l as [|[a t] l IH]; [reflexivity|].
  destruct (Nat.eq_dec a p) as [->|Hne].
  - unfold release in *. simpl. rewrite Nat.eqb_refl. exact IH.
  - rewrite release_skip, buffer_text_skip by exact Hne. exact IH.
Qed.

Lemma buffer_free_allocated {W} (p : nat) (b : memory W) (text : string) :
  buffer_text p (allocated b) = Some text ->
  buffer_free p b =
  Ok tt (mkMemory (prog b) (release p (allocated b)) (next_buffer b)
           (faulted b)).
Proof. intros H. unfold buffer_free. rewrite H. reflexivity. Qed.

Lemma buffer_strdup_allocated {W} (p : nat) (b : memory W) (text : string) :
  buffer_text p (allocated b) = Some text ->
  buffer_strdup p b =
  Ok (next_buffer b)
     (mkMemory (prog b) ((next_buffer b, text) :: allocated b)
        (S (next_buffer b)) (faulted b)).
Proof. intros H. unfold buffer_strdup. rewrite H. reflexivity. Qed.

Lemma buffer_strdup_released {W} (p : nat) (b : memory W) :
  buffer_text p (allocated b) = None ->
  buffer_strdup p b =
  Halt (mkMemory (prog b) (allocated b) (next_buffer b) true).
Proof. intros H. unfold buffer_strdup. rewrite H. reflexivity. Qed.

Lemma release_absent (p : nat) (l : list (nat * string)) :
  Forall (fun a => fst a < p) l -> release p l = l.
Proof.
  induction 1 as [|[a t] l Ha _ IH]; [reflexivity|].
  simpl in Ha. rewrite release_skip by lia. rewrite IH. reflexivity.
Qed.

Section BufferProperties.

Context {W : Type}.
Variable hands_back : transform -> ProfPlugin W -> string -> W -> bool.

Abbreviation walk := (buffer_walk hands_back).

(** The loop body when the hook answers no value. *)
Lemma buffer_walk_null (h : transform) (p : ProfPlugin W)
    (next : list (ProfPlugin W)) (c : nat) (b : memory W)
    (text : string) (w' : W) :
  buffer_text c (allocated b) = Some text ->
  transform_func h p text (world (prog b)) = Some (None, w') ->
  walk h (p :: next) c b =
  walk h next c
    (mkMemory (mkState w' (plugins (prog b))
                 (trace (prog b) ++ [TransformHook h p text]))
              (allocated b) (next_buffer b) (faulted b)).
Proof.
  intros Hc Ht. cbn [buffer_walk]. unfold bind at 1.
  unfold call_transform_buffer. rewrite Hc.
  unfold bind, in_program, call_transform, bind, emit, invoke, ret. simpl.
  rewrite Ht. reflexivity.
Qed.

(** The loop body when the hook does not return. *)
Lemma buffer_walk_no_return (h : transform) (p : ProfPlugin W)
    (next : list (ProfPlugin W)) (c : nat) (b : memory W) (text : string) :
  buffer_text c (allocated b) = Some text ->
  transform_func h p text (world (prog b)) = None ->
  walk h (p :: next) c b =
  Halt (mkMemory (mkState (world (prog b)) (plugins (prog b))
                    (trace (prog b) ++ [TransformHook h p text]))
                 (allocated b) (next_buffer b) (faulted b)).
Proof.
  intros Hc Ht. cbn [buffer_walk]. unfold bind at 1.
  unfold call_transform_buffer. rewrite Hc.
  unfold bind, in_program, call_transform, bind, emit, invoke, ret. simpl.
  rewrite Ht. reflexivity.
Qed.

(** The loop body when the hook hands back the buffer it was given:
    the buffer is released, then read. *)
Lemma buffer_walk_given (h : transform) (p : ProfPlugin W)
    (next : list (ProfPlugin W)) (c : nat) (b : memory W)
    (text answer : string) (w' : W) :
  buffer_text c (allocated b) = Some text ->
  transform_func h p text (world (prog b)) = Some (Some answer, w') ->
  hands_back h p text (world (prog b)) = true ->
  exists b',
    walk h (p :: next) c b = Halt b' /\
    faulted b' = true /\
    world (prog b') = w' /\
    trace (prog b') = trace (prog b) ++ [TransformHook h p text].
Proof.
  intros Hc Ht Hg. cbn [buffer_walk]. unfold bind at 1.
  unfold call_transform_buffer. rewrite Hc, Hg.
  unfold bind at 1, in_program, call_transform, bind at 1, emit, invoke.
  cbn [world plugins trace prog]. rewrite Ht. unfold ret at 1.
  unfold bind at 1. erewrite buffer_free_allocated by exact Hc.
  unfold bind at 1. rewrite buffer_strdup_released
    by (cbn [allocated]; apply buffer_text_released).
  eexists. split; [reflexivity|]. cbn. auto.
Qed.

(** The loop body when the hook answers in a buffer of its own: the
    current buffer and the answer are released, a copy of the answer is
    the new current buffer. *)
Lemma buffer_walk_own (h : transform) (p : ProfPlugin W)
    (next : list (ProfPlugin W)) (c : nat) (b : memory W)
    (text answer : string) (w' : W) :
  tidy b ->
  buffer_text c (allocated b) = Some text ->
  transform_func h p text (world (prog b)) = Some (Some answer, w') ->
  hands_back h p text (world (prog b)) = false ->
  walk h (p :: next) c b =
  walk h next (S (next_buffer b)) (replaced h p c b text answer w').
Proof.
  intros [Hbelow Hok] Hc Ht Hg.
  assert (Hlt : c < next_buffer b) by (eapply buffer_text_below; eassumption).
  assert (Hne : next_buffer b <> c) by lia.
  cbn [buffer_walk]. unfold bind at 1.
  unfold call_transform_buffer. rewrite Hc, Hg.
  unfold bind at 1, in_program, call_transform, bind at 1, emit, invoke.
  cbn [world plugins trace prog]. rewrite Ht.
  unfold bind at 1, strdup_text at 1, ret at 1.
  cbn [prog allocated next_buffer faulted].
  unfold bind at 1. erewrite buffer_free_allocated
    by (cbn [allocated]; rewrite buffer_text_skip by exact Hne; exact Hc).
  cbn [prog allocated next_buffer faulted]. rewrite release_skip by exact Hne.
  unfold bind at 1. erewrite buffer_strdup_allocated
    by (cbn [allocated]; apply buffer_text_head).
  cbn [prog allocated next_buffer faulted].
  unfold bind at 1. erewrite buffer_free_allocated
    by (cbn [allocated]; rewrite buffer_text_skip by lia;
        apply buffer_text_head).
  cbn [prog allocated next_buffer faulted].
  rewrite release_skip by lia. rewrite release_same. reflexivity.
Qed.

Lemma replaced_tidy (h : transform) (p : ProfPlugin W) (c : nat)
    (b : memory W) (text answer : string) (w' : W) :
  tidy b -> tidy (replaced h p c b text answer w').
Proof.
  intros [Hbelow Hok]. split; [|exact Hok].
  cbn [replaced allocated next_buffer].
  constructor; [simpl; lia|].
  apply release_below, below_next, below_next, release_below, Hbelow.
Qed.

Lemma tidy_in_program (b : memory W) (s : state W) :
  tidy b -> tidy (mkMemory s (allocated b) (next_buffer b) (faulted b)).
Proof. intros H. exact H. Qed.

Lemma buffer_alike_refl (h : transform) (l : list (ProfPlugin W)) :
  Forall2 (buffer_alike hands_back h) l l.
Proof.
  induction l; constructor; [|assumption]. intros m w. left. auto.
Qed.

Lemma copies_buffer_alike (h : transform) (p q : ProfPlugin W) :
  copies_where_silent hands_back h p q -> buffer_alike hands_back h p q.
Proof.
  intros H m w. specialize (H m w).
  destruct (transform_func h q m w) as [[[r|] w']|].
  - left. exact H.
  - right. exists w'. destruct H. auto.
  - left. exact H.
Qed.

(** Two walks over plugins that lead the loop the same way, from
    current buffers holding the same text, end the same way. *)
Lemma buffer_walk_alike (h : transform) (ps qs : list (ProfPlugin W)) :
  Forall2 (buffer_alike hands_back h) ps qs ->
  forall c1 c2 b1 b2 text,
    tidy b1 -> tidy b2 ->
    buffer_text c1 (allocated b1) = Some text ->
    buffer_text c2 (allocated b2) = Some text ->
    world (prog b1) = world (prog b2) ->
    map (@event_input W) (trace (prog b1)) =
      map (@event_input W) (trace (prog b2)) ->
    same_outcome (walk h ps c1 b1) (walk h qs c2 b2).
Proof.
  induction 1 as [|p q ps qs Hpq _ IH];
    intros c1 c2 b1 b2 text T1 T2 H1 H2 Hw Htr.
  - unfold same_outcome. simpl. rewrite H1, H2. auto.
  - assert (Hev : forall p1 p2,
               map (@event_input W) (trace (prog b1) ++ [TransformHook h p1 text]) =
               map (@event_input W) (trace (prog b2) ++ [TransformHook h p2 text]))
      by (intros; rewrite !map_app, Htr; reflexivity).
    destruct (Hpq text (world (prog b1))) as [[Hf Hg]|(w' & Hq & Hp & Hg)].
    + destruct (transform_func h p text (world (prog b1)))
        as [[[answer|] w']|] eqn:Ep; symmetry in Hf.
      * destruct (hands_back h p text (world (prog b1))) eqn:Eg;
          symmetry in Hg; rewrite Hw in Hf, Hg.
        -- destruct (@buffer_walk_given h p ps c1 b1 text answer w' H1 Ep Eg)
             as (b1' & -> & F1 & W1 & Tr1).
           destruct (@buffer_walk_given h q qs c2 b2 text answer w' H2 Hf Hg)
             as (b2' & -> & F2 & W2 & Tr2).
           unfold same_outcome. simpl.
           rewrite F1, F2, W1, W2, Tr1, Tr2. auto.
        -- rewrite (@buffer_walk_own h p ps c1 b1 text answer w' T1 H1 Ep Eg),
             (@buffer_walk_own h q qs c2 b2 text answer w' T2 H2 Hf Hg).
           apply IH with (text := answer);
             try apply replaced_tidy; try assumption;
             try apply buffer_text_head; try reflexivity.
           cbn [replaced prog trace]. apply Hev.
      * rewrite Hw in Hf.
        rewrite (@buffer_walk_null h p ps c1 b1 text w' H1 Ep),
          (@buffer_walk_null h q qs c2 b2 text w' H2 Hf).
        apply IH with (text := text); try assumption;
          try reflexivity; apply Hev.
      * rewrite Hw in Hf.
        rewrite (@buffer_walk_no_return h p ps c1 b1 text H1 Ep),
          (@buffer_walk_no_return h q qs c2 b2 text H2 Hf).
        unfold same_outcome. simpl.
        destruct T1 as [_ ->], T2 as [_ ->]. auto.
    + rewrite Hw in Hq.
      rewrite (@buffer_walk_own h p ps c1 b1 text text w' T1 H1 Hp Hg),
        (@buffer_walk_null h q qs c2 b2 text w' H2 Hq).
      apply IH with (text := text);
        try apply replaced_tidy; try assumption;
        try apply buffer_text_head; try reflexivity.
      cbn [replaced prog trace]. apply Hev.
Qed.

(** C8 (amended). For every message-transform hook, a plugin that
    returns a copy of its input, in a buffer of its own, has the same
    observable outcome as one that returns no value in its place: the
    messages handed to the plugins that follow, the outside world and
    what the caller gets back are the same. *)
Theorem copy_same_as_no_value (h : transform) (p q : ProfPlugin W)
    (before after : list (ProfPlugin W)) (message : string)
    (b : memory W) :
  tidy b ->
  copies_where_silent hands_back h p q ->
  same_outcome
    (plugins_transform_buffers hands_back h message
       (with_registry (before ++ p :: after) b))
    (plugins_transform_buffers hands_back h message
       (with_registry (before ++ q :: after) b)).
Proof.
  intros [Hbelow Hok] Hcopy.
  unfold plugins_transform_buffers, bind, in_program, get_plugins,
    strdup_text, with_registry.
  cbn [prog plugins allocated next_buffer faulted world trace].
  apply buffer_walk_alike with (text := message).
  - apply Forall2_app; [apply buffer_alike_refl|].
    constructor; [apply copies_buffer_alike, Hcopy | apply buffer_alike_refl].
  - split; [|exact Hok]. constructor; [simpl; lia | apply below_next, Hbelow].
  - split; [|exact Hok]. constructor; [simpl; lia | apply below_next, Hbelow].
  - apply buffer_text_head.
  - apply buffer_text_head.
  - reflexivity.
  - reflexivity.
Qed.

(** One turn of the string-level loop. *)
Lemma transform_walk_step (h : transform) (p : ProfPlugin W)
    (next : list (ProfPlugin W)) (message : string) (s : state W) :
  transform_walk h (p :: next) message s =
  match transform_func h p message (world s) with
  | Some (r, w') =>
      transform_walk h next (replace_or_keep message r)
        (mkState w' (plugins s) (trace s ++ [TransformHook h p message]))
  | None =>
      Halt (mkState (world s) (plugins s)
              (trace s ++ [TransformHook h p message]))
  end.
Proof.
  cbn [transform_walk].
  unfold call_transform, bind, emit, invoke. cbn [world plugins trace].
  destruct (transform_func h p message (world s)) as [[[r|] w']|];
    reflexivity.
Qed.

(** When no plugin of the list hands back the buffer it was given, the
    walk on buffers does what the walk on strings does, and leaves the
    heap as it was but for the current buffer. *)
Lemma buffer_walk_refines (h : transform) (curr : list (ProfPlugin W)) :
  (forall p, In p curr -> forall m w, hands_back h p m w = false) ->
  forall c b text base,
    allocated b = (c, text) :: base ->
    Forall (fun a => fst a < c) base ->
    c < next_buffer b ->
    faulted b = false ->
    match transform_walk h curr text (prog b) with
    | Ok v s' =>
        exists c' b',
          walk h curr c b = Ok c' b' /\
          prog b' = s' /\
          allocated b' = (c', v) :: base /\
          faulted b' = false
    | Halt s' =>
        exists b',
          walk h curr c b = Halt b' /\ prog b' = s' /\ faulted b' = false
    end.
Proof.
  induction curr as [|p next IH]; intros Hown c b text base Ha Hbase Hc Hok.
  - simpl. exists c, b. auto.
  - assert (Htext : buffer_text c (allocated b) = Some text)
      by (rewrite Ha; apply buffer_text_head).
    assert (Htidy : tidy b).
    { split; [|exact Hok]. rewrite Ha. constructor; [exact Hc|].
      revert Hbase. apply Forall_impl. intros a Hlt. lia. }
    assert (Hnext : forall q, In q next ->
                      forall m w, hands_back h q m w = false)
      by (intros q Hq; apply Hown; right; exact Hq).
    rewrite transform_walk_step.
    destruct (transform_func h p text (world (prog b)))
      as [[[answer|] w']|] eqn:E.
    + rewrite (@buffer_walk_own h p next c b text answer w' Htidy Htext E
                 (Hown p (or_introl eq_refl) _ _)).
      apply (IH Hnext (S (next_buffer b)) (replaced h p c b text answer w')
               answer base);
        cbn [replaced prog allocated next_buffer faulted].
      * rewrite Ha, release_same, (release_absent Hbase).
        rewrite release_absent; [reflexivity|].
        revert Hbase. apply Forall_impl. intros a Hlt. lia.
      * revert Hbase. apply Forall_impl. intros a Hlt. lia.
      * lia.
      * exact Hok.
    + rewrite (@buffer_walk_null h p next c b text w' Htext E).
      apply (IH Hnext c
               (mkMemory (mkState w' (plugins (prog b))
                            (trace (prog b) ++ [TransformHook h p text]))
                         (allocated b) (next_buffer b) (faulted b))
               text base);
        cbn [prog allocated next_buffer faulted]; assumption.
    + rewrite (@buffer_walk_no_return h p next c b text Htext E).
      eexists. split; [reflexivity|]. auto.
Qed.

(** X16. When no plugin of the registry hands back the buffer it was
    given, a message hook run on buffers does what it does on strings:
    it returns the same text, in a buffer of its own, after the same
    calls, and it has released every buffer it took over or made but
    that one; a hook that does not return stops it the same way.
    Nothing undefined happens. *)
Theorem buffers_agree_with_strings (h : transform) (message : string)
    (b : memory W) :
  tidy b ->
  (forall p, In p (plugins (prog b)) ->
     forall m w, hands_back h p m w = false) ->
  match plugins_transform h message (prog b) with
  | Ok v s' =>
      exists c' b',
        plugins_transform_buffers hands_back h message b = Ok c' b' /\
        prog b' = s' /\
        allocated b' = (c', v) :: allocated b /\
        faulted b' = false
  | Halt s' =>
      exists b',
        plugins_transform_buffers hands_back h message b = Halt b' /\
        prog b' = s' /\ faulted b' = false
  end.
Proof.
  intros [Hbelow Hok] Hown.
  assert (E : plugins_transform h message (prog b) =
              transform_walk h (plugins (prog b)) message (prog b))
    by (destruct h; reflexivity).
  rewrite E.
  unfold plugins_transform_buffers, bind, in_program, get_plugins, strdup_text.
  cbn [prog plugins allocated next_buffer faulted].
  pose proof (@buffer_walk_refines h (plugins (prog b)) Hown (next_buffer b)
                (mkMemory (prog b) ((next_buffer b, message) :: allocated b)
                   (S (next_buffer b)) (faulted b))
                message (allocated b) eq_refl Hbelow
                (Nat.lt_succ_diag_r _) Hok) as R.
  exact R.
Qed.

End BufferProperties.

(* ================================================================= *)
(** ** The properties on sample plugins and hosts *)

Import Sample.

Lemma transform_is_left_fold_witness :
  exists s',
    plugins_transform (OnMessageReceived "bob@example.org") "hi"
      (start [plugin_A; plugin_silent; plugin_B]) = Ok "B"%string s' /\
    trace s' =
      [TransformHook (OnMessageReceived "bob@example.org") plugin_A "hi";
       TransformHook (OnMessageReceived "bob@example.org") plugin_silent "A";
       TransformHook (OnMessageReceived "bob@example.org") plugin_B "A"]%string.
Proof.
  apply (proj2 (transform_is_left_fold (OnMessageReceived "bob@example.org")
                  "hi" (start [plugin_A; plugin_silent; plugin_B]))
           plugin_A plugin_silent plugin_B);
    [reflexivity | intros m w; eexists; reflexivity ..].
Defined.

Lemma transform_identity_on_empty_registry_witness :
  plugins (start []) = [] /\
  plugins_transform (OnRoomMessageSend "room@conference.example.org") "hello"
    (start []) = Ok "hello"%string (start []).
Proof.
  split; [reflexivity|].
  apply transform_identity_on_empty_registry. reflexivity.
Defined.

Lemma load_registry_is_created_subsequence_witness :
  let host := py_lua_host (Some ["a.py"; "broken.py"; "c.lua"; "d.rb"]%string) in
  prefs_get_plugins host (world (booted host (start []))) =
    Some ["a.py"; "broken.py"; "c.lua"; "d.rb"]%string /\
  plugins (state_of (plugins_init host (start []))) =
    [steady "a.py" LANG_PYTHON None; steady "c.lua" LANG_LUA None].
Proof.
  intros host. split; [reflexivity|].
  exact (proj1 (@load_registry_is_created_subsequence World host
                  ["a.py"; "broken.py"; "c.lua"; "d.rb"]%string (start [])
                  eq_refl)).
Defined.

Lemma load_example_skips_disabled_witness :
  let host := py_lua_host (Some ["a.py"; "b.xyz"; "c.lua"]%string) in
  plugins (state_of (plugins_init host (start []))) =
    [steady "a.py" LANG_PYTHON None; steady "c.lua" LANG_LUA None] /\
  load_file host "d.rb" (start []) = Ok tt (start []).
Proof.
  intros host. split.
  - apply (proj1 (@load_example_skips_disabled World host) (start []));
      try reflexivity; intros w; reflexivity.
  - apply (proj2 (@load_example_skips_disabled World host)).
    right. exists LANG_RUBY. split; reflexivity.
Defined.

Lemma no_plugin_list_boots_engines_only_witness :
  let host := py_lua_host None in
  prefs_get_plugins host (world (booted host (start []))) = None /\
  exists s',
    plugins_init host (start []) = Ok tt s' /\
    plugins s' = [] /\
    world s' = boot_world host 0 /\
    trace s' = [EnvInit LANG_PYTHON; EnvInit LANG_LUA] /\
    (forall h, plugins_notify h s' = Ok tt s') /\
    (forall h message, plugins_transform h message s' = Ok message s').
Proof.
  intros host. split; [reflexivity|].
  apply (@no_plugin_list_boots_engines_only World host (start [])).
  reflexivity.
Defined.

(** C3, as worded, does not hold: the init hook of the plugin loaded
    from a.py receives the version and the status, and no host name. *)
Lemma init_receives_no_host_name :
  let host := py_lua_host (Some ["a.py"]%string) in
  trace (state_of (plugins_init host (start []))) =
    [EnvInit LANG_PYTHON; EnvInit LANG_LUA;
     PluginCreate LANG_PYTHON "a.py"; LogInfo (loaded_message "a.py");
     InitHook (steady "a.py" LANG_PYTHON None) ["0.4.0"; "development"]%string] /\
  ~ init_gets_name_version_status host (start []).
Proof.
  intros host. split; [reflexivity|].
  intros H.
  destruct (H (steady "a.py" LANG_PYTHON None) (or_introl eq_refl))
    as [host_name Hin].
  change (trace (state_of (plugins_init host (start []))))
    with [EnvInit LANG_PYTHON; EnvInit LANG_LUA;
          PluginCreate LANG_PYTHON "a.py"%string;
          LogInfo (loaded_message "a.py");
          InitHook (steady "a.py" LANG_PYTHON None)
            ["0.4.0"; "development"]%string] in Hin.
  simpl in Hin.
  destruct Hin as [Hin|[Hin|[Hin|[Hin|[Hin|[]]]]]]; discriminate Hin.
Qed.

Lemma init_once_after_load_witness :
  let host := py_lua_host (Some ["a.py"; "b.xyz"; "c.lua"]%string) in
  exists s' loading,
    plugins_init host (start []) = Ok tt s' /\
    trace s' = loading ++
               [InitHook (steady "a.py" LANG_PYTHON None)
                  ["0.4.0"; "development"]%string;
                InitHook (steady "c.lua" LANG_LUA None)
                  ["0.4.0"; "development"]%string] /\
    created_files loading = ["a.py"; "c.lua"]%string.
Proof.
  intros host.
  destruct (@init_once_after_load World host (start []))
    as (s' & loading & Hr & Ht & _ & Hc).
  - intros p Hin w. simpl in Hin.
    destruct Hin as [<-|[<-|[]]]; discriminate.
  - exists s', loading.
    assert (Hp : plugins s' = [steady "a.py" LANG_PYTHON None;
                               steady "c.lua" LANG_LUA None])
      by (change s' with (state_of (Ok tt s')); rewrite <- Hr; reflexivity).
    rewrite Hp in Ht. auto.
Defined.

Lemma teardown_destroys_then_shuts_down_witness :
  let host := py_lua_host None in
  exists s',
    plugins_shutdown host (start [plugin_A; plugin_silent]) = Ok tt s' /\
    trace s' = [PluginDestroy LANG_PYTHON plugin_A;
                PluginDestroy LANG_LUA plugin_silent;
                EnvShutdown LANG_PYTHON; EnvShutdown LANG_LUA].
Proof.
  intros host.
  apply (@teardown_destroys_then_shuts_down World host
           (start [plugin_A; plugin_silent])).
  repeat constructor.
Defined.

(** C6, as worded, does not hold: the start hook of the first plugin
    does not return, the dispatcher does not return to the host, and the
    second plugin is never invoked. *)
Lemma notification_stops_at_failing_plugin :
  plugins_notify OnStart (start [plugin_crash; plugin_silent]) =
    Halt (mkState 0 [plugin_crash; plugin_silent]
            [NotifyHook OnStart plugin_crash]) /\
  ~ notification_reaches_all OnStart (start [plugin_crash; plugin_silent]).
Proof.
  split; [reflexivity|].
  intros (s' & Hr & _). discriminate Hr.
Qed.

Lemma notify_walks_registry_until_failure_witness :
  exists s',
    plugins_notify (OnConnect "me" "me@example.org/laptop")
      (start [plugin_A; plugin_silent]) = Ok tt s' /\
    trace s' =
      [NotifyHook (OnConnect "me" "me@example.org/laptop") plugin_A;
       NotifyHook (OnConnect "me" "me@example.org/laptop") plugin_silent].
Proof.
  apply (proj2 (notify_walks_registry_until_failure
                  (OnConnect "me" "me@example.org/laptop")
                  (start [plugin_A; plugin_silent]))).
  intros p Hin w. simpl in Hin.
  destruct Hin as [<-|[<-|[]]]; discriminate.
Defined.

Lemma plugins_dir_is_data_home_profanity_plugins_witness :
  let host := py_lua_host None in
  plugins_get_dir host (start [plugin_A]) =
    Ok "/home/user/.local/share/profanity/plugins"%string (start [plugin_A]) /\
  value_of (plugins_get_dir host (start [])) =
    value_of (plugins_get_dir host (start [plugin_A])).
Proof.
  intros host. split.
  - exact (proj1 (@plugins_dir_is_data_home_profanity_plugins World host
                    (start [plugin_A]))).
  - apply (proj2 (@plugins_dir_is_data_home_profanity_plugins World host
                    (start [plugin_A]))).
    reflexivity.
Defined.

(* ----------------------------------------------------------------- *)
(** *** The further properties on sample plugins and hosts *)

Lemma repeated_notifications_same_order_witness :
  exists s',
    (plugins_notify OnStart ;; plugins_notify OnShutdown)
      (start [plugin_A; plugin_silent]) = Ok tt s' /\
    trace s' = [NotifyHook OnStart plugin_A; NotifyHook OnStart plugin_silent;
                NotifyHook OnShutdown plugin_A;
                NotifyHook OnShutdown plugin_silent].
Proof.
  apply (@repeated_notifications_same_order World OnStart OnShutdown
           (start [plugin_A; plugin_silent]));
    intros p Hin w; simpl in Hin; destruct Hin as [<-|[<-|[]]]; discriminate.
Defined.

Lemma silent_registry_returns_message_witness :
  value_of (plugins_transform (OnMessageSend "bob@example.org") "hello"
              (start [plugin_silent; plugin_silent; plugin_silent])) =
  Some "hello"%string.
Proof.
  apply silent_registry_returns_message.
  intros p Hin m w. simpl in Hin.
  destruct Hin as [<-|[<-|[<-|[]]]]; eexists; reflexivity.
Defined.

Lemma last_answer_wins_witness :
  value_of (plugins_transform BeforeMessageDisplayed "hello"
              (start [plugin_A; plugin_silent; plugin_B; plugin_silent])) =
  Some "B"%string.
Proof.
  apply (@last_answer_wins World BeforeMessageDisplayed plugin_B
           [plugin_A; plugin_silent] [plugin_silent]).
  - reflexivity.
  - intros q Hin m w. simpl in Hin.
    destruct Hin as [<-|[<-|[]]]; discriminate.
  - intros m w. eexists. reflexivity.
  - intros q Hin m w. simpl in Hin.
    destruct Hin as [<-|[]]. eexists. reflexivity.
Defined.

Lemma notification_after_teardown_reaches_destroyed_witness :
  let s := start [plugin_mortal; plugin_silent] in
  trace (state_of ((plugins_shutdown (py_lua_host None) ;;
                    plugins_notify OnStart) s)) =
    [PluginDestroy LANG_PYTHON plugin_mortal;
     PluginDestroy LANG_LUA plugin_silent;
     EnvShutdown LANG_PYTHON; EnvShutdown LANG_LUA;
     NotifyHook OnStart plugin_mortal] /\
  exists invoked rest,
    invoked <> [] /\ plugins s = invoked ++ rest.
Proof.
  intros s. split; [reflexivity|].
  destruct (@notification_after_teardown_reaches_destroyed World
              (py_lua_host None) OnStart s)
    as (invoked & rest & Hc & _ & Hne & _).
  exists invoked, rest. split; [apply Hne; discriminate | exact Hc].
Defined.

Lemma init_stops_at_failing_hook_witness :
  let host := fragile_host (Some ["a.py"; "crash.py"; "c.lua"]%string) in
  value_of (plugins_init host (start [])) = None /\
  exists loading inited rest,
    plugins (state_of (plugins_init host (start []))) = inited ++ rest /\
    trace (state_of (plugins_init host (start []))) =
      trace (start []) ++ loading ++
      map (fun p => InitHook p [PROF_PACKAGE_VERSION host;
                                PROF_PACKAGE_STATUS host]) inited /\
    forallb (@is_loading World) loading = true /\
    match plugins_init host (start []) with
    | Ok _ _ => rest = []
    | Halt s' =>
        exists before p,
          inited = before ++ [p] /\
          init_func p (PROF_PACKAGE_VERSION host) (PROF_PACKAGE_STATUS host)
            (world s') = None
    end.
Proof.
  intros host. split; [reflexivity|].
  apply (@init_stops_at_failing_hook World host
           ["a.py"; "crash.py"; "c.lua"]%string (start [])).
  reflexivity.
Defined.

Lemma plugins_init_forgets_registry_witness :
  let host := py_lua_host (Some ["a.py"]%string) in
  plugins (state_of (plugins_init host (start [plugin_A; plugin_B]))) =
  plugins (state_of (plugins_init host (start []))).
Proof.
  intros host.
  apply (@plugins_init_forgets_registry World host
           (start [plugin_A; plugin_B]) (start [])).
  reflexivity.
Defined.

Lemma one_log_line_per_loaded_plugin_witness :
  let host := py_lua_host (Some ["a.py"; "broken.py"; "c.lua"; "d.rb"]%string) in
  logged (trace (state_of (plugins_init host (start [])))) =
  [loaded_message "a.py"; loaded_message "c.lua"].
Proof.
  intros host.
  apply (@one_log_line_per_loaded_plugin World host
           ["a.py"; "broken.py"; "c.lua"; "d.rb"]%string (start [])).
  reflexivity.
Defined.

Lemma registry_at_most_one_plugin_per_file_witness :
  let host := py_lua_host (Some ["a.py"; "broken.py"; "c.lua"; "d.rb"]%string) in
  List.length (plugins (state_of (plugins_init host (start [])))) <= 3 /\
  List.length (plugins (state_of (plugins_init host (start [])))) <= 4.
Proof.
  intros host.
  apply (@registry_at_most_one_plugin_per_file World host
           ["a.py"; "broken.py"; "c.lua"; "d.rb"]%string (start [])).
  reflexivity.
Defined.

Lemma every_loadable_file_loaded_witness :
  let host := fragile_host (Some ["a.py"; "a.py"; "d.rb"; "c.lua"]%string) in
  map fst (fst (load_spec host ["a.py"; "a.py"; "d.rb"; "c.lua"]%string
                  (world (booted host (start []))))) =
    ["a.py"; "a.py"; "c.lua"]%string /\
  List.length (plugins (state_of (plugins_init host (start [])))) = 3.
Proof.
  intros host.
  apply (@every_loadable_file_loaded World host
           ["a.py"; "a.py"; "d.rb"; "c.lua"]%string (start [])).
  - reflexivity.
  - intros l filename w. simpl. discriminate.
Defined.

Lemma file_goes_to_engine_of_its_extension_witness :
  exists tail,
    trace (state_of (load_file (py_lua_host None) ".py" (start []))) =
    trace (start []) ++ PluginCreate LANG_PYTHON ".py" :: tail.
Proof.
  apply (proj2 (@file_goes_to_engine_of_its_extension World (py_lua_host None)
                  LANG_PYTHON ".py"%string (start []))).
  split; [reflexivity|]. exists ""%string. reflexivity.
Defined.

Lemma short_filename_is_skipped_witness :
  load_file (py_lua_host None) "" (start [plugin_A]) = Ok tt (start [plugin_A]).
Proof.
  apply short_filename_is_skipped. simpl. lia.
Defined.

(* ----------------------------------------------------------------- *)
(** *** Message buffers on sample plugins *)

(** C8, as worded, does not hold: a plugin that hands back the buffer it
    was given makes the loop release that buffer and then read it,
    where a plugin that returns no value lets the message through. *)
Lemma echo_of_given_buffer_is_undefined :
  observe (plugins_transform_buffers given_always BeforeMessageDisplayed "hi"
             (fresh_memory [plugin_echo])) = UndefinedBehaviour /\
  observe (plugins_transform_buffers given_always BeforeMessageDisplayed "hi"
             (fresh_memory [plugin_silent])) = Answered (Some "hi"%string) /\
  ~ echo_treated_as_no_value given_always BeforeMessageDisplayed
      plugin_echo plugin_silent [] [] "hi" (fresh_memory []).
Proof.
  split; [reflexivity|]. split; [reflexivity|].
  intros H.
  assert (He : echoes_where_silent BeforeMessageDisplayed plugin_echo
                 plugin_silent) by (intros m w; reflexivity).
  destruct (H He) as [Hobs _]. discriminate Hobs.
Qed.

Lemma copy_same_as_no_value_witness :
  tidy (fresh_memory []) /\
  copies_where_silent given_never BeforeMessageDisplayed
    plugin_echo plugin_silent /\
  same_outcome
    (plugins_transform_buffers given_never BeforeMessageDisplayed "hi"
       (with_registry ([plugin_A] ++ plugin_echo :: [plugin_B])
          (fresh_memory [])))
    (plugins_transform_buffers given_never BeforeMessageDisplayed "hi"
       (with_registry ([plugin_A] ++ plugin_silent :: [plugin_B])
          (fresh_memory []))).
Proof.
  assert (T : tidy (fresh_memory [])) by (split; [constructor | reflexivity]).
  assert (C : copies_where_silent given_never BeforeMessageDisplayed
                plugin_echo plugin_silent)
    by (intros m w; split; reflexivity).
  split; [exact T|]. split; [exact C|].
  exact (@copy_same_as_no_value World given_never BeforeMessageDisplayed
           plugin_echo plugin_silent [plugin_A] [plugin_B] "hi"%string
           (fresh_memory []) T C).
Defined.

Lemma buffers_agree_with_strings_witness :
  exists c' b',
    plugins_transform_buffers given_never (OnMessageReceived "bob@example.org")
      "hi" (fresh_memory [plugin_A; plugin_silent; plugin_B]) = Ok c' b' /\
    allocated b' = [(c', "B"%string)].
Proof.
  assert (T : tidy (fresh_memory [plugin_A; plugin_silent; plugin_B]))
    by (split; [constructor | reflexivity]).
  pose proof (@buffers_agree_with_strings World given_never
                (OnMessageReceived "bob@example.org") "hi"%string
                (fresh_memory [plugin_A; plugin_silent; plugin_B]) T
                (fun _ _ _ _ => eq_refl)) as R.
  cbv beta iota delta [plugins_transform plugins_on_message_received] in R.
  destruct R as (c' & b' & Hr & _ & Ha & _).
  exists c', b'. split; [exact Hr | exact Ha].
Defined.
